(** * budgetsms-client: response decoding, query encoding, error model, validators

    A shallow embedding of [src/utils.ts], [src/errors.ts],
    [src/constants.ts] and [src/client.ts], together with the ECMAScript
    built-ins those files call ([String.prototype.trim], [startsWith],
    [substring], [split], [parseInt], [parseFloat], [encodeURIComponent],
    [RegExp.prototype.test]).

    Modelling conventions.
    - A JavaScript string is the list of its UTF-16 code units ([N], each
      below 2^16 for a real string).
    - A thrown exception is the [Throw] case of [result]; the plain [Error]
      of the sources is the constructor [Error], the library's own class is
      [BudgetSMSError].
    - An integer-valued Number (an error code, a delivery status, the value
      of [parseInt]) is a [Z]: the integer the scanned digits denote, which
      stands for the Number the engine returns for those digits.  That
      Number is the integer itself, and prints as its plain decimal text,
      whenever the integer is safe (magnitude below 2^53), far above
      anything the gateway sends; beyond, the engine rounds to the nearest
      double, prints in exponent form from 10^21 on and overflows to
      Infinity.  A statement that reads the value of a code or of a status
      off the digits of a response is therefore made for safe integers
      ([safeInteger]).  The value of [parseFloat] is the exact decimal the
      scanned literal denotes, a [Q] in lowest terms; the Number the engine
      returns is the double nearest to it.  The sign of zero is not tracked.
    - [JSON.parse], [Array.isArray] and [String] on a Number are parameters.
    - The client awaits one promise per call; [fetch] is a function from the
      URL to the way that promise settles, and the timer that aborts it is
      seen only through the rejection it causes. *)

From Stdlib Require Import List NArith ZArith QArith Bool Lia.
From Stdlib Require Import Ascii String DecimalString DecimalPos.
Import ListNotations.
Close Scope Q_scope.

Set Implicit Arguments.

(* ================================================================= *)
(** ** ECMAScript strings and built-ins *)

Module JS.

Definition jsstring : Type := list N.

(** Code unit of an ASCII character, and the string of an ASCII literal. *)
Definition ch (a : ascii) : N := N_of_ascii a.
Definition lit (s : string) : jsstring := List.map N_of_ascii (list_ascii_of_string s).

Definition between (lo hi c : N) : bool := (N.leb lo c && N.leb c hi)%bool.

(** WhiteSpace and LineTerminator code points: what [trim] strips and what
    the regular-expression class [\s] matches. *)
Definition isWhiteSpace (c : N) : bool :=
  (between 9 13 c || N.eqb c 32 || N.eqb c 160 || N.eqb c 5760
   || between 8192 8202 c || N.eqb c 8232 || N.eqb c 8233 || N.eqb c 8239
   || N.eqb c 8287 || N.eqb c 12288 || N.eqb c 65279)%bool.

(** [\d] and [0-9]. *)
Definition isDigit (c : N) : bool := between 48 57 c.
(** [a-zA-Z] (uriAlpha). *)
Definition isAlpha (c : N) : bool := (between 65 90 c || between 97 122 c)%bool.
(** [a-zA-Z0-9]. *)
Definition isAlnum (c : N) : bool := (isAlpha c || isDigit c)%bool.

Fixpoint takeWhile (p : N -> bool) (s : jsstring) : jsstring :=
  match s with
  | [] => []
  | c :: s' => if p c then c :: takeWhile p s' else []
  end.

Fixpoint dropWhile (p : N -> bool) (s : jsstring) : jsstring :=
  match s with
  | [] => []
  | c :: s' => if p c then dropWhile p s' else s
  end.

Definition trimStart (s : jsstring) : jsstring := dropWhile isWhiteSpace s.
Definition trimEnd (s : jsstring) : jsstring := rev (dropWhile isWhiteSpace (rev s)).
(** [String.prototype.trim]. *)
Definition trim (s : jsstring) : jsstring := trimEnd (trimStart s).

(** [s.startsWith(p)]. *)
Fixpoint startsWith (s p : jsstring) {struct p} : bool :=
  match p with
  | [] => true
  | a :: p' =>
      match s with
      | [] => false
      | c :: s' => (N.eqb c a && startsWith s' p')%bool
      end
  end.

(** [s.substring(n)]: a start beyond the end is clamped to the end. *)
Definition substring (s : jsstring) (n : nat) : jsstring := skipn n s.

(** [===] on strings. *)
Fixpoint str_eqb (a b : jsstring) : bool :=
  match a, b with
  | [], [] => true
  | x :: a', y :: b' => (N.eqb x y && str_eqb a' b')%bool
  | _, _ => false
  end.

(** [s.includes(p)]. *)
Fixpoint includes (s p : jsstring) : bool :=
  (startsWith s p ||
   match s with
   | [] => false
   | _ :: s' => includes s' p
   end)%bool.

(** Mathematical value of a run of decimal digits. *)
Definition digitsValue (ds : jsstring) : Z :=
  fold_left (fun acc d => (acc * 10 + Z.of_N (d - 48))%Z) ds 0%Z.

(** An optional leading [+] or [-]: whether it was [-], and what follows. *)
Definition takeSign (s : jsstring) : bool * jsstring :=
  match s with
  | c :: r => if N.eqb c (ch "-") then (true, r)
              else if N.eqb c (ch "+") then (false, r)
              else (false, s)
  | [] => (false, [])
  end.

Definition signed (neg : bool) (z : Z) : Z := if neg then (- z)%Z else z.

(** The value of [parseInt]: NaN or an integer.  [IInt z] stands for the
    Number the engine returns when the digits denote [z]; that Number is
    [z] itself when [z] is a safe integer. *)
Inductive intnum : Type :=
| INaN
| IInt (z : Z).

(** The scan [parseInt(s, 10)] performs: leading white space, an optional
    sign, then the longest run of decimal digits; what follows the digits is
    returned unread.  [None] when no digit is found. *)
Definition scanInt (s : jsstring) : option (Z * jsstring) :=
  let '(neg, u) := takeSign (trimStart s) in
  match takeWhile isDigit u with
  | [] => None
  | ds => Some (signed neg (digitsValue ds), dropWhile isDigit u)
  end.

(** [parseInt(s, 10)]. *)
Definition parseInt (s : jsstring) : intnum :=
  match scanInt s with
  | None => INaN
  | Some (z, _) => IInt z
  end.

(** The value of [parseFloat]. *)
Inductive number : Type :=
| NaN
| Infinity (negative : bool)
| Finite (q : Q).

(** [m * 10^e], in lowest terms. *)
Definition decimal (m e : Z) : Q := Qred (inject_Z m * Qpower (10 # 1) e)%Q.

(** ExponentPart, when one is present: [e] or [E], an optional sign and at
    least one digit.  Without a digit there is no exponent and the [e] is
    left unread. *)
Definition scanExponent (s : jsstring) : Z * jsstring :=
  match s with
  | c :: r =>
      if (N.eqb c (ch "e") || N.eqb c (ch "E"))%bool then
        let '(neg, u) := takeSign r in
        match takeWhile isDigit u with
        | [] => (0%Z, s)
        | ds => (signed neg (digitsValue ds), dropWhile isDigit u)
        end
      else (0%Z, s)
  | [] => (0%Z, [])
  end.

(** The fraction after the integer digits [ip], when one is present: a dot
    and the digits after it.  A dot with no digit on either side is not
    part of a literal and is left unread. *)
Definition scanFraction (ip r1 : jsstring) : jsstring * jsstring :=
  match r1 with
  | c :: r =>
      if N.eqb c (ch ".") then
        match ip, takeWhile isDigit r with
        | [], [] => ([], r1)
        | _, fp => (fp, dropWhile isDigit r)
        end
      else ([], r1)
  | [] => ([], r1)
  end.

(** The longest prefix of the left-trimmed text that is a StrDecimalLiteral,
    with its value and what follows it.  [None] when there is no such
    prefix. *)
Definition scanFloat (s : jsstring) : option (number * jsstring) :=
  let '(neg, u) := takeSign (trimStart s) in
  if startsWith u (lit "Infinity") then Some (Infinity neg, skipn 8 u)
  else
    let ip := takeWhile isDigit u in
    let '(fp, r2) := scanFraction ip (dropWhile isDigit u) in
    match ip ++ fp with
    | [] => None
    | ds =>
        let '(ex, r3) := scanExponent r2 in
        Some (Finite (decimal (signed neg (digitsValue ds))
                              (ex - Z.of_nat (List.length fp))), r3)
    end.

(** [parseFloat(s)]. *)
Definition parseFloat (s : jsstring) : number :=
  match scanFloat s with
  | None => NaN
  | Some (x, _) => x
  end.

(** [s.split(sep)] for a separator of one code unit. *)
Fixpoint splitOn (sep : N) (cur : jsstring) (s : jsstring) : list jsstring :=
  match s with
  | [] => [rev cur]
  | c :: s' => if N.eqb c sep then rev cur :: splitOn sep [] s'
               else splitOn sep (c :: cur) s'
  end.
Definition split (s : jsstring) (sep : N) : list jsstring := splitOn sep [] s.

(** [s.split(/\s+/)].  The pattern never matches the empty string, so an
    empty subject yields the one-element array holding the empty string; a
    maximal run of white space ends the current piece, and the text after
    the last run (possibly empty) is the last piece.  [inRun] records that
    the previous code unit belonged to a separator. *)
Fixpoint splitSpaces (inRun : bool) (cur : jsstring) (s : jsstring) : list jsstring :=
  match s with
  | [] => [rev cur]
  | c :: s' =>
      if isWhiteSpace c
      then if inRun then splitSpaces true [] s'
           else rev cur :: splitSpaces true [] s'
      else splitSpaces false (c :: cur) s'
  end.
Definition split_ws (s : jsstring) : list jsstring := splitSpaces false [] s.

(** [a.join(sep)]. *)
Fixpoint join (sep : jsstring) (a : list jsstring) : jsstring :=
  match a with
  | [] => []
  | [x] => x
  | x :: a' => x ++ sep ++ join sep a'
  end.

(** Decimal text of an integer-valued Number (template literal, [String]):
    what the engine prints for a Number of magnitude below 10^21, so for
    every safe integer. *)
Definition Z_toString (z : Z) : jsstring := lit (NilEmpty.string_of_int (Z.to_int z)).

(** *** [encodeURIComponent] *)

(** uriUnescaped: letters, digits and the marks [-_.!~*'()]. *)
Definition isUnreserved (c : N) : bool :=
  (isAlnum c || existsb (N.eqb c) (lit "-_.!~*'()"))%bool.

Definition isLeadSurrogate (c : N) : bool := between 55296 56319 c.
Definition isTrailSurrogate (c : N) : bool := between 56320 57343 c.

(** UTF16SurrogatePairToCodePoint. *)
Definition pairToCodePoint (lead trail : N) : N :=
  ((lead - 55296) * 1024 + (trail - 56320) + 65536)%N.

(** The UTF-8 octets of a code point. *)
Definition utf8 (cp : N) : list N :=
  if N.ltb cp 128 then [cp]
  else if N.ltb cp 2048 then [192 + cp / 64; 128 + cp mod 64]%N
  else if N.ltb cp 65536 then
    [224 + cp / 4096; 128 + (cp / 64) mod 64; 128 + cp mod 64]%N
  else [240 + cp / 262144; 128 + (cp / 4096) mod 64;
        128 + (cp / 64) mod 64; 128 + cp mod 64]%N.

Definition hexDigit (n : N) : N := if N.ltb n 10 then (48 + n)%N else (55 + n)%N.

(** ["%XX"], upper-case hexadecimal. *)
Definition escapeOctet (o : N) : jsstring := [ch "%"; hexDigit (o / 16); hexDigit (o mod 16)].

Definition escapeCodePoint (cp : N) : jsstring := flat_map escapeOctet (utf8 cp).

(** [encodeURIComponent(s)]; [None] stands for the URIError the built-in
    throws when it meets a surrogate code unit that is not part of a pair. *)
Fixpoint encodeURIComponent (s : jsstring) : option jsstring :=
  match s with
  | [] => Some []
  | c :: s' =>
      if isUnreserved c then option_map (cons c) (encodeURIComponent s')
      else if isTrailSurrogate c then None
      else if isLeadSurrogate c then
        match s' with
        | d :: s'' =>
            if isTrailSurrogate d
            then option_map (app (escapeCodePoint (pairToCodePoint c d)))
                            (encodeURIComponent s'')
            else None
        | [] => None
        end
      else option_map (app (escapeCodePoint c)) (encodeURIComponent s')
  end.

(** *** Regular expressions, matched against the whole subject ([^...$]) *)

Inductive regex : Type :=
| Void
| Eps
| Class (p : N -> bool)
| Cat (r1 r2 : regex)
| Alt (r1 r2 : regex)
| Star (r : regex).

Fixpoint nullable (r : regex) : bool :=
  match r with
  | Void => false
  | Eps => true
  | Class _ => false
  | Cat r1 r2 => (nullable r1 && nullable r2)%bool
  | Alt r1 r2 => (nullable r1 || nullable r2)%bool
  | Star _ => true
  end.

Fixpoint deriv (c : N) (r : regex) : regex :=
  match r with
  | Void => Void
  | Eps => Void
  | Class p => if p c then Eps else Void
  | Cat r1 r2 =>
      if nullable r1 then Alt (Cat (deriv c r1) r2) (deriv c r2)
      else Cat (deriv c r1) r2
  | Alt r1 r2 => Alt (deriv c r1) (deriv c r2)
  | Star r1 => Cat (deriv c r1) (Star r1)
  end.

(** [/^r$/.test(s)]. *)
Fixpoint test (r : regex) (s : jsstring) : bool :=
  match s with
  | [] => nullable r
  | c :: s' => test (deriv c r) s'
  end.

(** [r{n}]. *)
Fixpoint power (r : regex) (n : nat) : regex :=
  match n with
  | O => Eps
  | S n' => Cat r (power r n')
  end.

(** [r{0,n}]. *)
Fixpoint upto (r : regex) (n : nat) : regex :=
  match n with
  | O => Eps
  | S n' => Alt Eps (Cat r (upto r n'))
  end.

(** [r{lo,hi}]. *)
Definition Repeat (r : regex) (lo hi : nat) : regex := Cat (power r lo) (upto r (hi - lo)).

(** [isNaN(x)] on a value of [parseFloat]. *)
Definition isNaN (x : number) : bool :=
  match x with
  | NaN => true
  | _ => false
  end.

End JS.

(* ================================================================= *)
(** ** constants.ts *)

Module Constants.
Import JS.
Local Open Scope Z_scope.

(** [enum BudgetSMSErrorCode]: the members the other files name. *)
Definition NOT_ENOUGH_CREDITS : Z := 1001.
Definition INVALID_CREDENTIALS : Z := 1002.
Definition ACCOUNT_NOT_ACTIVE : Z := 1003.
Definition IP_NOT_ALLOWED : Z := 1004.
Definition NO_HANDLE_PROVIDED : Z := 1005.
Definition NO_USERID_PROVIDED : Z := 1006.
Definition NO_USERNAME_PROVIDED : Z := 1007.
Definition SYSTEM_ERROR_TEMPORARY : Z := 4002.
Definition SYSTEM_ERROR_TEMPORARY_2 : Z := 4003.
Definition GATEWAY_NOT_REACHABLE : Z := 4006.

(** [ERROR_MESSAGES], one entry per member of the enum. *)
Definition ERROR_MESSAGES : list (Z * string) :=
  [ (1001, "Not enough credits to send messages");
    (1002, "Identification failed. Wrong credentials");
    (1003, "Account not active, contact BudgetSMS");
    (1004, "This IP address is not added to this account. No access to the API");
    (1005, "No handle provided");
    (1006, "No UserID provided");
    (1007, "No Username provided");
    (2001, "SMS message text is empty");
    (2002, "SMS numeric senderid can be max. 16 numbers");
    (2003, "SMS alphanumeric sender can be max. 11 characters");
    (2004, "SMS senderid is empty or invalid");
    (2005, "Destination number is too short");
    (2006, "Destination is not numeric");
    (2007, "Destination is empty");
    (2008, "SMS text is not OK (check encoding?)");
    (2009, "Parameter issue (check all mandatory parameters, encoding, etc.)");
    (2010, "Destination number is invalidly formatted");
    (2011, "Destination is invalid");
    (2012, "SMS message text is too long");
    (2013, "SMS message is invalid");
    (2014, "SMS CustomID is used before");
    (2015, "Charset problem");
    (2016, "Invalid UTF-8 encoding");
    (2017, "Invalid SMSid");
    (3001, "No route to destination. Contact BudgetSMS for possible solutions");
    (3002, "No routes are setup. Contact BudgetSMS for a route setup");
    (3003, "Invalid destination. Check international mobile number formatting");
    (4001, "System error, related to customID");
    (4002, "System error, temporary issue. Try resubmitting in 2 to 3 minutes");
    (4003, "System error, temporary issue");
    (4004, "System error, temporary issue. Contact BudgetSMS");
    (4005, "System error, permanent");
    (4006, "Gateway not reachable");
    (4007, "System error, contact BudgetSMS");
    (5001, "Send error, Contact BudgetSMS with the send details");
    (5002, "Wrong SMS type");
    (5003, "Wrong operator");
    (6001, "Unknown error");
    (7001, "No HLR provider present, Contact BudgetSMS");
    (7002, "Unexpected results from HLR provider");
    (7003, "Bad number format");
    (7901, "Unexpected error. Contact BudgetSMS");
    (7902, "HLR provider error. Contact BudgetSMS");
    (7903, "HLR provider error. Contact BudgetSMS") ]%string.

(** [ERROR_MESSAGES[code]]; [None] is [undefined]. *)
Definition ERROR_MESSAGES_get (code : Z) : option jsstring :=
  option_map (fun kv => lit (snd kv))
             (find (fun kv => Z.eqb (fst kv) code) ERROR_MESSAGES).

(** [enum DLRStatus]. *)
Definition DLRStatus : list Z := [0; 1; 2; 3; 4; 5; 6; 7; 8; 11; 12; 13].

Definition API_BASE : jsstring := lit "https://api.budgetsms.net".

Module ENDPOINTS.
Definition SEND_SMS : jsstring := lit "/sendsms/".
Definition TEST_SMS : jsstring := lit "/testsms/".
Definition CHECK_CREDIT : jsstring := lit "/checkcredit/".
Definition CHECK_OPERATOR : jsstring := lit "/checkoperator/".
Definition HLR : jsstring := lit "/hlr/".
Definition CHECK_SMS : jsstring := lit "/checksms/".
Definition GET_PRICING : jsstring := lit "/getpricing/".
End ENDPOINTS.

End Constants.

(* ================================================================= *)
(** ** errors.ts *)

Module Errors.
Import JS Constants.

(** An instance of [class BudgetSMSError]. *)
Record BudgetSMSError : Type := mkBudgetSMSError {
  code : Z;
  message : jsstring
}.

(** [a || b] where [a] is a string or [undefined]: the empty string and
    [undefined] are falsy. *)
Definition orElse (a : option jsstring) (b : jsstring) : jsstring :=
  match a with
  | Some (c :: a') => c :: a'
  | _ => b
  end.

(** [new BudgetSMSError(code, message?)]. *)
Definition new_BudgetSMSError (code : Z) (message : option jsstring) : BudgetSMSError :=
  mkBudgetSMSError code
    (orElse message
       (orElse (ERROR_MESSAGES_get code)
          (lit "BudgetSMS API error: " ++ Z_toString code))).

Definition isRetryable (e : BudgetSMSError) : bool :=
  existsb (Z.eqb (code e))
    [SYSTEM_ERROR_TEMPORARY; SYSTEM_ERROR_TEMPORARY_2; GATEWAY_NOT_REACHABLE].

Definition isAuthenticationError (e : BudgetSMSError) : bool :=
  existsb (Z.eqb (code e))
    [INVALID_CREDENTIALS; ACCOUNT_NOT_ACTIVE; IP_NOT_ALLOWED;
     NO_HANDLE_PROVIDED; NO_USERID_PROVIDED; NO_USERNAME_PROVIDED].

Definition isInsufficientCredits (e : BudgetSMSError) : bool :=
  Z.eqb (code e) NOT_ENOUGH_CREDITS.

End Errors.

(* ================================================================= *)
(** ** utils.ts *)

Module Utils.
Import JS Constants Errors.

(** What a [throw] can carry: a plain [Error] with its message, the URIError
    of [encodeURIComponent], or an instance of [BudgetSMSError]. *)
Inductive exn : Type :=
| Error (message : jsstring)
| URIError
| OfBudgetSMSError (e : BudgetSMSError).

(** A computation that returns or throws. *)
Inductive result (A : Type) : Type :=
| Return (a : A)
| Throw (e : exn).
Arguments Return {A} a.
Arguments Throw {A} e.

Definition bind {A B : Type} (m : result A) (k : A -> result B) : result B :=
  match m with
  | Return a => k a
  | Throw e => Throw e
  end.

Notation "x <- m ;; k" := (bind m (fun x => k))
  (at level 61, m at next level, right associativity).

(** [undefined] counts as [false] for an optional boolean argument. *)
Definition truthy (b : option bool) : bool :=
  match b with
  | Some true => true
  | _ => false
  end.

(** [parts[i]] for an index the code has checked to be in range. *)
Definition item (parts : list jsstring) (i : nat) : jsstring := nth i parts [].

(** *** buildQueryString *)

Section BuildQueryString.

(** The Number values a parameter can hold and [String(n)] on them are left
    abstract. *)
Variable num : Type.
Variable Number_toString : num -> jsstring.

(** [string | number | boolean | undefined], and [null]. *)
Inductive value : Type :=
| VString (s : jsstring)
| VNumber (n : num)
| VBoolean (b : bool)
| VUndefined
| VNull.

(** [value !== undefined && value !== null]. *)
Definition present (v : value) : bool :=
  match v with
  | VUndefined | VNull => false
  | _ => true
  end.

(** [typeof value === 'boolean' ? (value ? '1' : '0') : String(value)]. *)
Definition stringValue (v : value) : jsstring :=
  match v with
  | VBoolean b => if b then lit "1" else lit "0"
  | VString s => s
  | VNumber n => Number_toString n
  | VUndefined => lit "undefined"
  | VNull => lit "null"
  end.

Definition encode (s : jsstring) : result jsstring :=
  match encodeURIComponent s with
  | Some e => Return e
  | None => Throw URIError
  end.

(** The [for ... of Object.entries(params)] loop; [pairs] is the array
    built so far. *)
Fixpoint buildPairs (entries : list (jsstring * value)) (pairs : list jsstring)
  : result (list jsstring) :=
  match entries with
  | [] => Return pairs
  | (key, v) :: rest =>
      if present v then
        k <- encode key ;;
        e <- encode (stringValue v) ;;
        buildPairs rest (pairs ++ [k ++ lit "=" ++ e])
      else buildPairs rest pairs
  end.

(** [params] is given as [Object.entries(params)] lists it. *)
Definition buildQueryString (params : list (jsstring * value)) : result jsstring :=
  pairs <- buildPairs params [] ;;
  Return (join (lit "&") pairs).

End BuildQueryString.

Arguments VUndefined {num}.
Arguments VNull {num}.
Arguments VBoolean {num} b.
Arguments VString {num} s.

(** *** parseResponse *)

Definition parseResponse (response : jsstring) : result jsstring :=
  let trimmed := trim response in
  if startsWith trimmed (lit "ERR ") then
    match parseInt (substring trimmed 4) with
    | INaN => Throw (Error (lit "Invalid error response format: " ++ trimmed))
    | IInt errorCode => Throw (OfBudgetSMSError (new_BudgetSMSError errorCode None))
    end
  else if startsWith trimmed (lit "OK ") then
    Return (trim (substring trimmed 3))
  else if str_eqb trimmed (lit "OK") then
    Return []
  else Throw (Error (lit "Unexpected API response format: " ++ trimmed)).

(** *** parseSendSMSResponse *)

(** An optional field that was not assigned is [None].  [parts] holds what
    [parseInt] returned, NaN included. *)
Record SendSMSResponse : Type := mkSendSMSResponse {
  success : bool;
  smsId : jsstring;
  price : option number;
  parts : option intnum;
  mccMnc : option jsstring;
  credit : option number
}.

Definition parseSendSMSResponse (response : jsstring)
    (includePrice includeMccMnc includeCredit : option bool)
  : result SendSMSResponse :=
  data <- parseResponse response ;;
  let parts := split_ws data in
  if Nat.eqb (List.length parts) 0 then
    Throw (Error (lit "Invalid send SMS response: no SMS ID found"))
  else
    let result := mkSendSMSResponse true (item parts 0) None None None None in
    let index := 1 in
    let '(result, index) :=
      if (truthy includePrice && Nat.ltb (index + 1) (List.length parts))%bool then
        (mkSendSMSResponse (success result) (smsId result)
           (Some (parseFloat (item parts index)))
           (Some (parseInt (item parts (index + 1))))
           (mccMnc result) (credit result),
         index + 2)
      else (result, index) in
    let '(result, index) :=
      if (truthy includeMccMnc && Nat.ltb index (List.length parts))%bool then
        (mkSendSMSResponse (success result) (smsId result) (price result)
           (Utils.parts result) (Some (item parts index)) (credit result),
         index + 1)
      else (result, index) in
    let result :=
      if (truthy includeCredit && Nat.ltb index (List.length parts))%bool then
        mkSendSMSResponse (success result) (smsId result) (price result)
          (Utils.parts result) (mccMnc result)
          (Some (parseFloat (item parts index)))
      else result in
    Return result.

(** *** parseOperatorResponse *)

(** The fields [success] and [mccMnc] of the interface carry the prefix
    [op_] here, to keep them apart from those of [SendSMSResponse]. *)
Record OperatorResponse : Type := mkOperatorResponse {
  op_success : bool;
  op_mccMnc : jsstring;
  operatorName : jsstring;
  messageCost : number
}.

Definition parseOperatorResponse (response : jsstring) : result OperatorResponse :=
  data <- parseResponse response ;;
  let parts := split data (ch ":") in
  if Nat.ltb (List.length parts) 3 then
    Throw (Error (lit "Invalid operator response format: " ++ data))
  else
    Return (mkOperatorResponse true (item parts 0) (item parts 1)
              (parseFloat (item parts 2))).

(** *** parseSMSStatusResponse *)

(** Likewise [success] and [smsId] carry the prefix [st_]. *)
Record SMSStatusResponse : Type := mkSMSStatusResponse {
  st_success : bool;
  st_smsId : jsstring;
  status : Z
}.

Definition parseSMSStatusResponse (response smsId : jsstring) : result SMSStatusResponse :=
  data <- parseResponse response ;;
  match parseInt data with
  | INaN => Throw (Error (lit "Invalid status response: " ++ data))
  | IInt status => Return (mkSMSStatusResponse true smsId status)
  end.

(** *** validateSender *)

Definition validateSender (sender : jsstring) : bool :=
  if test (Repeat (Class isAlnum) 1 11) sender then true
  else if test (Repeat (Class isDigit) 1 16) sender then true
  else false.

(** *** parseCheckCreditResponse *)

(** [success] and [credit] carry the prefix [cc_]. *)
Record CheckCreditResponse : Type := mkCheckCreditResponse {
  cc_success : bool;
  cc_credit : number
}.

Definition parseCheckCreditResponse (response : jsstring) : result CheckCreditResponse :=
  data <- parseResponse response ;;
  let credit := parseFloat data in
  if isNaN credit then
    Throw (Error (lit "Invalid credit response: " ++ data))
  else Return (mkCheckCreditResponse true credit).

(** *** parsePricingResponse *)

Section ParsePricingResponse.

(** Parsed JSON values, [JSON.parse] and [Array.isArray] are left abstract.
    [JSON_parse] gives the value, or the message of the SyntaxError it
    throws. *)
Variable json : Type.
Variable JSON_parse : jsstring -> json + jsstring.
Variable Array_isArray : json -> bool.

(** The [try] block.  The SyntaxError is an Error; only its message is
    looked at afterwards. *)
Definition parsePricingBody (response : jsstring) : result json :=
  match JSON_parse response with
  | inr m => Throw (Error m)
  | inl pricing =>
      if negb (Array_isArray pricing)
      then Throw (Error (lit "Pricing response is not an array"))
      else Return pricing
  end.

(** The [catch] block: a BudgetSMSError is thrown again, anything else is
    wrapped.  (A URIError cannot come out of the [try] block; its message is
    the one V8 gives.) *)
Definition parsePricingCatch (error : exn) : result json :=
  match error with
  | OfBudgetSMSError e => Throw (OfBudgetSMSError e)
  | Error m => Throw (Error (lit "Failed to parse pricing response: " ++ m))
  | URIError =>
      Throw (Error (lit "Failed to parse pricing response: " ++ lit "URI malformed"))
  end.

Definition parsePricingResponse (response : jsstring) : result json :=
  _ <- (if startsWith (trim response) (lit "ERR ")
        then (_ <- parseResponse response ;; Return tt)
        else Return tt) ;;
  match parsePricingBody response with
  | Return pricing => Return pricing
  | Throw error => parsePricingCatch error
  end.

End ParsePricingResponse.

(** *** validatePhoneNumber, validateMessage *)

Definition validatePhoneNumber (phoneNumber : jsstring) : bool :=
  test (Repeat (Class isDigit) 8 16) phoneNumber.

Definition validateMessage (message : jsstring) : bool :=
  (Nat.ltb 0 (List.length message) && Nat.leb (List.length message) 612)%bool.

End Utils.

(* ================================================================= *)
(** ** client.ts *)

Module Client.
Import JS Constants Errors Utils.

(** The client never passes a Number as a parameter value. *)
Definition noNumber : Type := Empty_set.
Definition noNumber_toString (n : noNumber) : jsstring := match n with end.
Definition APIRequestParams : Type := list (jsstring * value noNumber).

(** [BudgetSMSConfig]; the fields carry the prefix [cfg_]. *)
Record BudgetSMSConfig : Type := mkBudgetSMSConfig {
  cfg_username : jsstring;
  cfg_userid : jsstring;
  cfg_handle : jsstring;
  cfg_baseUrl : option jsstring;
  cfg_timeout : option Z
}.

(** The private fields of [class BudgetSMS]. *)
Record BudgetSMS : Type := mkBudgetSMS {
  username : jsstring;
  userid : jsstring;
  handle : jsstring;
  baseUrl : jsstring;
  timeout : Z
}.

(** [new BudgetSMS(config)]: an empty [baseUrl] and a zero [timeout] are
    falsy and give way to the defaults. *)
Definition new_BudgetSMS (config : BudgetSMSConfig) : BudgetSMS :=
  mkBudgetSMS (cfg_username config) (cfg_userid config) (cfg_handle config)
    (orElse (cfg_baseUrl config) API_BASE)
    (match cfg_timeout config with
     | Some t => if Z.eqb t 0 then 30000%Z else t
     | None => 30000%Z
     end).

(** How an awaited promise settles.  Of a rejection the code asks only
    whether the reason is an Error named AbortError. *)
Inductive settled (A : Type) : Type :=
| Fulfilled (a : A)
| RejectedAbort
| Rejected (reason : exn).
Arguments Fulfilled {A} a.
Arguments RejectedAbort {A}.
Arguments Rejected {A} reason.

(** What the code reads of a fetch Response. *)
Record Response : Type := mkResponse {
  ok : bool;
  http_status : Z;
  text : settled jsstring
}.

(** [SendSMSParams]; the fields carry the prefix [sms_]. *)
Record SendSMSParams : Type := mkSendSMSParams {
  sms_msg : jsstring;
  sms_from : jsstring;
  sms_to : jsstring;
  sms_customid : option jsstring;
  sms_price : option bool;
  sms_mccmnc : option bool;
  sms_credit : option bool
}.

Definition optString (o : option jsstring) : value noNumber :=
  match o with
  | Some s => VString s
  | None => VUndefined
  end.

Definition optBoolean (o : option bool) : value noNumber :=
  match o with
  | Some b => VBoolean b
  | None => VUndefined
  end.

Section Transport.

(** [fetch(url, { method: 'GET', signal })], as a function of the URL. *)
Variable fetch : jsstring -> settled Response.

Variable json : Type.
Variable JSON_parse : jsstring -> json + jsstring.
Variable Array_isArray : json -> bool.

Variable this : BudgetSMS.

Definition timeoutError : exn :=
  Error (lit "Request timeout after " ++ Z_toString (timeout this) ++ lit "ms").

(** [request]: the query string is built before the [try] block; inside it,
    a rejection named AbortError becomes the timeout Error and anything else
    is thrown on as it is. *)
Definition request (endpoint : jsstring) (params : APIRequestParams) : result jsstring :=
  queryString <- buildQueryString noNumber_toString params ;;
  let url := baseUrl this ++ endpoint ++ lit "?" ++ queryString in
  match fetch url with
  | Fulfilled response =>
      if negb (ok response) then
        Throw (Error (lit "HTTP error! status: " ++ Z_toString (http_status response)))
      else
        match text response with
        | Fulfilled body => Return body
        | RejectedAbort => Throw timeoutError
        | Rejected reason => Throw reason
        end
  | RejectedAbort => Throw timeoutError
  | Rejected reason => Throw reason
  end.

Definition getAuthParams : APIRequestParams :=
  [ (lit "username", VString (username this));
    (lit "userid", VString (userid this));
    (lit "handle", VString (handle this)) ].

(** The request parameters of [sendSMS] and [testSMS], in the order the
    object literal creates them. *)
Definition smsRequestParams (params : SendSMSParams) : APIRequestParams :=
  getAuthParams ++
  [ (lit "msg", VString (sms_msg params));
    (lit "from", VString (sms_from params));
    (lit "to", VString (sms_to params));
    (lit "customid", optString (sms_customid params));
    (lit "price", optBoolean (sms_price params));
    (lit "mccmnc", optBoolean (sms_mccmnc params));
    (lit "credit", optBoolean (sms_credit params)) ].

Definition sendSMS (params : SendSMSParams) : result SendSMSResponse :=
  response <- request ENDPOINTS.SEND_SMS (smsRequestParams params) ;;
  parseSendSMSResponse response (sms_price params) (sms_mccmnc params) (sms_credit params).

Definition testSMS (params : SendSMSParams) : result SendSMSResponse :=
  response <- request ENDPOINTS.TEST_SMS (smsRequestParams params) ;;
  parseSendSMSResponse response (sms_price params) (sms_mccmnc params) (sms_credit params).

Definition checkCredit : result CheckCreditResponse :=
  response <- request ENDPOINTS.CHECK_CREDIT getAuthParams ;;
  parseCheckCreditResponse response.

Definition checkOperator (phoneNumber : jsstring) : result OperatorResponse :=
  response <- request ENDPOINTS.CHECK_OPERATOR
                (getAuthParams ++ [(lit "check", VString phoneNumber)]) ;;
  parseOperatorResponse response.

Definition hlr (phoneNumber : jsstring) : result OperatorResponse :=
  response <- request ENDPOINTS.HLR
                (getAuthParams ++ [(lit "to", VString phoneNumber)]) ;;
  parseOperatorResponse response.

Definition checkSMS (smsId : jsstring) : result SMSStatusResponse :=
  response <- request ENDPOINTS.CHECK_SMS
                (getAuthParams ++ [(lit "smsid", VString smsId)]) ;;
  parseSMSStatusResponse response smsId.

Definition getPricing : result json :=
  response <- request ENDPOINTS.GET_PRICING getAuthParams ;;
  parsePricingResponse JSON_parse Array_isArray response.

End Transport.

End Client.

(* ================================================================= *)
(** ** Reference notions the statements below compare the code with *)

Module Spec.
Import JS Constants Errors Utils.

(** The language of a regular expression. *)
Inductive matches : regex -> jsstring -> Prop :=
| MEps : matches Eps []
| MClass p c : p c = true -> matches (Class p) [c]
| MCat r1 r2 s1 s2 : matches r1 s1 -> matches r2 s2 -> matches (Cat r1 r2) (s1 ++ s2)
| MAltL r1 r2 s : matches r1 s -> matches (Alt r1 r2) s
| MAltR r1 r2 s : matches r2 s -> matches (Alt r1 r2) s
| MStarNil r : matches (Star r) []
| MStarApp r s1 s2 : matches r s1 -> matches (Star r) s2 -> matches (Star r) (s1 ++ s2).

(** Between [lo] and [hi] code units, all of them in the class [p]. *)
Definition classRun (p : N -> bool) (lo hi : nat) (s : jsstring) : Prop :=
  lo <= List.length s <= hi /\ forallb p s = true.

(** An optional sign, then one or more digits, and nothing else. *)
Definition integerText (s : jsstring) : bool :=
  match snd (takeSign s) with
  | [] => false
  | c :: u => forallb isDigit (c :: u)
  end.

(** [t] is an optional sign, a non-empty run of digits of value [n] (negated
    under a minus sign), and then [rest], which does not go on with a
    digit. *)
Definition integerPrefix (t : jsstring) (n : Z) (rest : jsstring) : Prop :=
  exists sign ds,
    t = sign ++ ds ++ rest
    /\ (sign = [] \/ sign = lit "+" \/ sign = lit "-")
    /\ ds <> []
    /\ forallb isDigit ds = true
    /\ match rest with c :: _ => isDigit c = false | [] => True end
    /\ n = if str_eqb sign (lit "-") then (- digitsValue ds)%Z else digitsValue ds.

(** [Number.isSafeInteger]: a magnitude of at most 2^53 - 1.  Such an
    integer is a Number, no other integer rounds to it, and its text is its
    plain decimal notation. *)
Definition safeInteger (n : Z) : Prop := (Z.abs n <= 9007199254740991)%Z.

(** After leading white space and an optional sign, the text goes on with a
    digit. *)
Definition startsInteger (s : jsstring) : bool :=
  match snd (takeSign (trimStart s)) with
  | c :: _ => isDigit c
  | [] => false
  end.

(** After leading white space and an optional sign, the text goes on with a
    digit, with a dot and a digit, or with the word Infinity. *)
Definition startsDecimal (s : jsstring) : bool :=
  let u := snd (takeSign (trimStart s)) in
  (startsWith u (lit "Infinity") ||
   match u with
   | c :: r => isDigit c ||
               (N.eqb c (ch ".") && match r with d :: _ => isDigit d | [] => false end)
   | [] => false
   end)%bool.

(** What may follow a run of digits without extending the literal: the end
    of the text, or a code unit that is not a digit, a dot or an exponent
    mark. *)
Definition endsLiteral (rest : jsstring) : bool :=
  match rest with
  | c :: _ => negb (isDigit c || N.eqb c (ch ".") || N.eqb c (ch "e") || N.eqb c (ch "E"))
  | [] => true
  end.

(** The whole text is one decimal literal (after leading white space). *)
Definition numericText (s : jsstring) : bool :=
  match scanFloat s with
  | Some (_, []) => true
  | _ => false
  end.

(** [String.prototype.isWellFormed]: no surrogate code unit outside a
    lead-trail pair. *)
Fixpoint isWellFormed (s : jsstring) : bool :=
  match s with
  | [] => true
  | c :: s' =>
      if isTrailSurrogate c then false
      else if isLeadSurrogate c then
        match s' with
        | d :: s'' => (isTrailSurrogate d && isWellFormed s'')%bool
        | [] => false
        end
      else isWellFormed s'
  end.

(** Every entry that [buildQueryString] encodes has a well-formed key and a
    well-formed string value. *)
Definition wellFormedParams {num : Type} (Number_toString : num -> jsstring)
    (params : list (jsstring * value num)) : bool :=
  forallb (fun kv => (negb (present (snd kv))
                      || (isWellFormed (fst kv)
                          && isWellFormed (stringValue Number_toString (snd kv))))%bool)
          params.

(** [piece] is the encoded key, an equals sign and the encoded string value
    of the entry [kv]. *)
Definition encodedPair {num : Type} (Number_toString : num -> jsstring)
    (kv : jsstring * value num) (piece : jsstring) : Prop :=
  exists ek ev,
    encodeURIComponent (fst kv) = Some ek
    /\ encodeURIComponent (stringValue Number_toString (snd kv)) = Some ev
    /\ piece = ek ++ lit "=" ++ ev.

(** What [encodeURIComponent] can emit: unreserved code units and the
    percent sign. *)
Definition isEscaped (c : N) : bool := (isUnreserved c || N.eqb c (ch "%"))%bool.

(** A code unit: below 2^16. *)
Definition isCodeUnit (c : N) : bool := N.ltb c 65536.

(** The optional fields of a send result, read off the tokens that follow
    the message ID: price and part count (two tokens), then MCC/MNC, then
    credit, each only when wanted and present. *)
Definition takePrice (want : bool) (rest : list jsstring)
  : option number * option intnum * list jsstring :=
  match want, rest with
  | true, p :: n :: rest' => (Some (parseFloat p), Some (parseInt n), rest')
  | _, _ => (None, None, rest)
  end.

Definition takeToken (want : bool) (rest : list jsstring)
  : option jsstring * list jsstring :=
  match want, rest with
  | true, t :: rest' => (Some t, rest')
  | _, _ => (None, rest)
  end.

Definition sendResult (id : jsstring) (rest : list jsstring)
    (wantPrice wantMccMnc wantCredit : bool) : SendSMSResponse :=
  let '(price, parts, rest1) := takePrice wantPrice rest in
  let '(mccMnc, rest2) := takeToken wantMccMnc rest1 in
  let '(credit, _) := takeToken wantCredit rest2 in
  mkSendSMSResponse true id price parts mccMnc (option_map parseFloat credit).

(** No code unit of [t] is in the class [p]. *)
Definition avoids (p : N -> bool) (t : jsstring) : bool :=
  forallb (fun c => negb (p c)) t.

(** The pieces of a query string, seen from outside: each has one equals
    sign, no ampersand, and nothing but escaped text around the sign. *)
Definition pieceShape (piece : jsstring) : Prop :=
  exists ek ev, piece = ek ++ lit "=" ++ ev
                /\ forallb isEscaped ek = true /\ forallb isEscaped ev = true.

(** Every key and string value that [buildQueryString] encodes consists of
    code units. *)
Definition codeUnitParams {num : Type} (Number_toString : num -> jsstring)
    (params : list (jsstring * value num)) : bool :=
  forallb (fun kv => (negb (present (snd kv))
                      || (forallb isCodeUnit (fst kv)
                          && forallb isCodeUnit (stringValue Number_toString (snd kv))))%bool)
          params.

(** What [request] makes of the way the fetch promise settles. *)
Definition answer (this : Client.BudgetSMS) (s : Client.settled Client.Response)
  : result jsstring :=
  match s with
  | Client.Fulfilled response =>
      if Client.ok response then
        match Client.text response with
        | Client.Fulfilled body => Return body
        | Client.RejectedAbort => Throw (Client.timeoutError this)
        | Client.Rejected reason => Throw reason
        end
      else Throw (Error (lit "HTTP error! status: "
                         ++ Z_toString (Client.http_status response)))
  | Client.RejectedAbort => Throw (Client.timeoutError this)
  | Client.Rejected reason => Throw reason
  end.

(** The credentials in a query string, given their encoded forms. *)
Definition authQuery (eu ei eh : jsstring) : jsstring :=
  lit "username=" ++ eu ++ lit "&userid=" ++ ei ++ lit "&handle=" ++ eh.

(** A further pair of a query string, when the value is there. *)
Definition optPiece (name : jsstring) (encoded : option jsstring) : jsstring :=
  match encoded with
  | Some e => lit "&" ++ name ++ lit "=" ++ e
  | None => []
  end.

Definition flagText (flag : option bool) : option jsstring :=
  option_map (fun b : bool => if b then lit "1" else lit "0") flag.

(** [e] is the encoded form of the optional text [o]. *)
Definition encodedOpt (o e : option jsstring) : Prop :=
  match o, e with
  | Some s, Some x => encodeURIComponent s = Some x
  | None, None => True
  | _, _ => False
  end.

(** [r] throws [e1] or throws [e2]. *)
Definition throwsOneOf {A : Type} (r : result A) (e1 e2 : exn) : Prop :=
  r = Throw e1 \/ r = Throw e2.

End Spec.

(* ================================================================= *)
(** ** Properties *)

Import JS Constants Errors Utils Spec.

(** *** Lists of code units *)

Lemma takeWhile_dropWhile (p : N -> bool) (s : jsstring) :
  takeWhile p s ++ dropWhile p s = s.
Proof.
  induction s as [|c s IH]; simpl; [reflexivity|].
  destruct (p c); simpl; [now rewrite IH | reflexivity].
Qed.

Lemma takeWhile_all (p : N -> bool) (s : jsstring) :
  forallb p (takeWhile p s) = true.
Proof.
  induction s as [|c s IH]; simpl; [reflexivity|].
  destruct (p c) eqn:E; simpl; [now rewrite E | reflexivity].
Qed.

Lemma dropWhile_head (p : N -> bool) (s : jsstring) (c : N) (r : jsstring) :
  dropWhile p s = c :: r -> p c = false.
Proof.
  induction s as [|d s IH]; simpl; [discriminate|].
  destruct (p d) eqn:E; [exact IH|].
  intros H; injection H as -> _; exact E.
Qed.

Lemma dropWhile_fixed (p : N -> bool) (s : jsstring) :
  match s with c :: _ => p c = false | [] => True end -> dropWhile p s = s.
Proof.
  destruct s as [|c s]; simpl; [reflexivity|]. now intros ->.
Qed.

Lemma str_eqb_eq (a b : jsstring) : str_eqb a b = true <-> a = b.
Proof.
  revert b; induction a as [|x a IH]; destruct b as [|y b]; simpl;
    try (split; [discriminate | discriminate]); [tauto|].
  rewrite andb_true_iff, N.eqb_eq, IH. split.
  - now intros [-> ->].
  - intros H; injection H; auto.
Qed.

Lemma startsWith_app (p x : jsstring) : startsWith (p ++ x) p = true.
Proof.
  induction p as [|a p IH]; simpl; [reflexivity|].
  now rewrite N.eqb_refl, IH.
Qed.

Lemma startsWith_split (s p : jsstring) :
  startsWith s p = true -> s = p ++ skipn (List.length p) s.
Proof.
  revert s; induction p as [|a p IH]; intros s; simpl; [reflexivity|].
  destruct s as [|c s]; [discriminate|].
  rewrite andb_true_iff, N.eqb_eq. intros [-> H]. simpl. f_equal. now apply IH.
Qed.

Lemma includes_prefix (s p : jsstring) : startsWith s p = true -> includes s p = true.
Proof.
  destruct s; cbn [includes]; intros ->; reflexivity.
Qed.

(** *** Regular expressions: the derivative matcher decides the language *)

Section RegexLemmas.

Lemma matches_nil_app (r : regex) (s : jsstring) :
  matches r s -> s = [] -> nullable r = true.
Proof.
  induction 1 as [ | p c Hp | r1 r2 s1 s2 _ IH1 _ IH2 | r1 r2 s _ IH
                 | r1 r2 s _ IH | r | r s1 s2 _ _ _ _ ]; intros E; simpl; auto.
  - discriminate.
  - apply app_eq_nil in E as [-> ->]. now rewrite IH1, IH2.
  - now rewrite IH.
  - rewrite IH by assumption. apply orb_true_r.
Qed.

Lemma nullable_matches (r : regex) : nullable r = true <-> matches r [].
Proof.
  split.
  - induction r as [ | | p | r1 IH1 r2 IH2 | r1 IH1 r2 IH2 | r IH]; simpl; intros H.
    + discriminate.
    + constructor.
    + discriminate.
    + apply andb_true_iff in H as [H1 H2].
      change (@nil N) with (@nil N ++ []). constructor; auto.
    + apply orb_true_iff in H as [H|H]; [apply MAltL | apply MAltR]; auto.
    + constructor.
  - intros H. now apply (matches_nil_app H).
Qed.

Lemma matches_cat_inv (r1 r2 : regex) (s : jsstring) :
  matches (Cat r1 r2) s ->
  exists s1 s2, s = s1 ++ s2 /\ matches r1 s1 /\ matches r2 s2.
Proof. inversion 1; subst; eauto. Qed.

Lemma matches_alt_inv (r1 r2 : regex) (s : jsstring) :
  matches (Alt r1 r2) s -> matches r1 s \/ matches r2 s.
Proof. inversion 1; subst; auto. Qed.

Lemma matches_star_cons (R : regex) (t : jsstring) :
  matches R t ->
  forall r c s, R = Star r -> t = c :: s ->
  exists s1 s2, s = s1 ++ s2 /\ matches r (c :: s1) /\ matches (Star r) s2.
Proof.
  induction 1 as [ | | | | | r0 | r0 s1 s2 H1 _ H2 IH2 ]; intros r' c' s' ER Et;
    try discriminate.
  injection ER as ->.
  destruct s1 as [|d s1].
  - simpl in Et. now apply IH2.
  - simpl in Et. injection Et as -> <-.
    exists s1, s2. auto.
Qed.

Lemma deriv_matches (c : N) (r : regex) :
  forall s, matches (deriv c r) s <-> matches r (c :: s).
Proof.
  induction r as [ | | p | r1 IH1 r2 IH2 | r1 IH1 r2 IH2 | r IH]; intros s; simpl.
  - split; inversion 1.
  - split; inversion 1.
  - destruct (p c) eqn:E; split; intros H; inversion H; subst.
    + now constructor.
    + constructor.
    + congruence.
  - assert (Hcat : matches (Cat (deriv c r1) r2) s ->
                   matches (Cat r1 r2) (c :: s)).
    { intros H. destruct (matches_cat_inv H) as (s1 & s2 & -> & Ha & Hb).
      change (c :: s1 ++ s2) with ((c :: s1) ++ s2).
      constructor; [now apply IH1 | assumption]. }
    assert (Hback : matches (Cat r1 r2) (c :: s) ->
                    (nullable r1 = true /\ matches (deriv c r2) s)
                    \/ matches (Cat (deriv c r1) r2) s).
    { intros H. destruct (matches_cat_inv H) as (s1 & s2 & Es & Ha & Hb).
      destruct s1 as [|d s1]; simpl in Es.
      - left. subst s2. split; [now apply nullable_matches | now apply IH2].
      - right. injection Es as <- ->. constructor; [now apply IH1 | assumption]. }
    destruct (nullable r1) eqn:N1; split; intros H.
    + destruct (matches_alt_inv H) as [H1|H2]; [now apply Hcat|].
      change (c :: s) with ([] ++ c :: s).
      constructor; [now apply nullable_matches | now apply IH2].
    + destruct (Hback H) as [[_ H2] | H1]; [now apply MAltR | now apply MAltL].
    + now apply Hcat.
    + destruct (Hback H) as [[Hn _] | H1]; [congruence | assumption].
  - split; intros H; destruct (matches_alt_inv H) as [H1|H2].
    + apply MAltL. now apply IH1.
    + apply MAltR. now apply IH2.
    + apply MAltL. now apply IH1.
    + apply MAltR. now apply IH2.
  - split; intros H.
    + destruct (matches_cat_inv H) as (s1 & s2 & -> & Ha & Hb).
      change (c :: s1 ++ s2) with ((c :: s1) ++ s2).
      constructor; [now apply IH | assumption].
    + destruct (matches_star_cons H eq_refl eq_refl) as (s1 & s2 & -> & Ha & Hb).
      constructor; [now apply IH | assumption].
Qed.

Lemma test_matches (s : jsstring) : forall r, test r s = true <-> matches r s.
Proof.
  induction s as [|c s IH]; intros r; simpl.
  - apply nullable_matches.
  - rewrite IH. apply deriv_matches.
Qed.

Variable p : N -> bool.

Lemma matches_power (n : nat) (s : jsstring) :
  matches (power (Class p) n) s <-> List.length s = n /\ forallb p s = true.
Proof.
  revert s; induction n as [|n IH]; intros s; simpl.
  - split.
    + inversion 1. auto.
    + intros [E _]. apply length_zero_iff_nil in E as ->. constructor.
  - split.
    + intros H. destruct (matches_cat_inv H) as (s1 & s2 & -> & Ha & Hb).
      inversion Ha; subst. apply IH in Hb as [<- Hb]. simpl.
      split; [reflexivity|]. now rewrite Hb, andb_true_r.
    + destruct s as [|c s]; simpl; intros [E H]; [discriminate|].
      apply andb_true_iff in H as [Hc H].
      change (c :: s) with ([c] ++ s). constructor; [now constructor|].
      apply IH. split; [lia | assumption].
Qed.

Lemma matches_upto (n : nat) (s : jsstring) :
  matches (upto (Class p) n) s <-> List.length s <= n /\ forallb p s = true.
Proof.
  revert s; induction n as [|n IH]; intros s; simpl.
  - split.
    + inversion 1. auto.
    + intros [E _]. destruct s; [constructor | simpl in E; lia].
  - split.
    + intros H. destruct (matches_alt_inv H) as [Ha|Hb].
      * inversion Ha. simpl. split; [lia | reflexivity].
      * destruct (matches_cat_inv Hb) as (s1 & s2 & -> & Hc & Hd).
        inversion Hc; subst. apply IH in Hd as [Hl Hd]. simpl.
        split; [lia|]. now rewrite Hd, andb_true_r.
    + destruct s as [|c s]; simpl; intros [E H].
      * apply MAltL. constructor.
      * apply andb_true_iff in H as [Hc H]. apply MAltR.
        change (c :: s) with ([c] ++ s). constructor; [now constructor|].
        apply IH. split; [lia | assumption].
Qed.

Lemma test_Repeat (lo hi : nat) (s : jsstring) :
  lo <= hi ->
  (test (Repeat (Class p) lo hi) s = true <-> classRun p lo hi s).
Proof.
  intros Hle. rewrite test_matches. unfold Repeat, classRun. split.
  - intros H. destruct (matches_cat_inv H) as (s1 & s2 & -> & Ha & Hb).
    apply matches_power in Ha as [Ha1 Ha2]. apply matches_upto in Hb as [Hb1 Hb2].
    rewrite length_app, forallb_app, Ha2, Hb2. split; [lia | reflexivity].
  - intros [Hl Hp].
    rewrite <- (firstn_skipn lo s) in Hp |- *.
    rewrite forallb_app in Hp. apply andb_true_iff in Hp as [H1 H2].
    constructor.
    + apply matches_power. split; [|assumption]. rewrite length_firstn. lia.
    + apply matches_upto. split; [|assumption]. rewrite length_skipn. lia.
Qed.

End RegexLemmas.

(** *** Character classes *)

Ltac bools H :=
  unfold isAlnum, isAlpha, isDigit, isWhiteSpace, isLeadSurrogate,
    isTrailSurrogate, between in H;
  repeat first
    [ rewrite orb_true_iff in H | rewrite andb_true_iff in H
    | rewrite orb_false_iff in H | rewrite andb_false_iff in H
    | rewrite N.leb_le in H | rewrite N.leb_gt in H
    | rewrite N.eqb_eq in H | rewrite N.eqb_neq in H ].

Lemma isDigit_isAlnum (c : N) : isDigit c = true -> isAlnum c = true.
Proof. unfold isAlnum. intros ->. apply orb_true_r. Qed.

Lemma isWhiteSpace_not_isAlnum (c : N) : isWhiteSpace c = true -> isAlnum c = false.
Proof.
  intros H. destruct (isAlnum c) eqn:A; [|reflexivity].
  bools H. bools A. lia.
Qed.

Lemma forallb_digit_alnum (s : jsstring) :
  forallb isDigit s = true -> forallb isAlnum s = true.
Proof.
  rewrite !forallb_forall. intros H c Hc. apply isDigit_isAlnum. auto.
Qed.

(** *** validateSender *)

Lemma validateSender_runs (s : jsstring) :
  validateSender s = true <-> classRun isAlnum 1 11 s \/ classRun isDigit 1 16 s.
Proof.
  unfold validateSender.
  destruct (test (Repeat (Class isAlnum) 1 11) s) eqn:A.
  - apply test_Repeat in A; [tauto | lia].
  - destruct (test (Repeat (Class isDigit) 1 16) s) eqn:D.
    + apply test_Repeat in D; [tauto | lia].
    + split; [discriminate|]. intros [H|H]; apply test_Repeat in H; try lia; congruence.
Qed.

(** C10.  [validateSender s] is true exactly when [s] belongs to the
    language of [[a-zA-Z0-9]{1,11}] or of [\d{1,16}], that is, when [s] is
    1 to 11 alphanumeric code units or 1 to 16 digits.  Hence it is false
    for the empty string, for a string holding a white-space or any other
    non-alphanumeric code unit, for 12 alphanumeric code units that are not
    all digits, and for 17 digits. *)
Theorem validateSender_spec (s : jsstring) :
  (validateSender s = true <->
     matches (Repeat (Class isAlnum) 1 11) s \/ matches (Repeat (Class isDigit) 1 16) s)
  /\ (validateSender s = true <-> classRun isAlnum 1 11 s \/ classRun isDigit 1 16 s)
  /\ validateSender [] = false
  /\ (forall c, In c s -> isAlnum c = false -> validateSender s = false)
  /\ (forall c, In c s -> isWhiteSpace c = true -> validateSender s = false)
  /\ (List.length s = 12 -> forallb isAlnum s = true -> forallb isDigit s = false ->
      validateSender s = false)
  /\ (List.length s = 17 -> forallb isDigit s = true -> validateSender s = false).
Proof.
  assert (Hno : forall c, In c s -> isAlnum c = false -> validateSender s = false).
  { intros c Hin Hc. destruct (validateSender s) eqn:V; [|reflexivity].
    apply validateSender_runs in V as [[_ H]|[_ H]].
    - rewrite forallb_forall in H. specialize (H c Hin). congruence.
    - apply forallb_digit_alnum in H.
      rewrite forallb_forall in H. specialize (H c Hin). congruence. }
  split; [|split; [|split; [|split; [|split; [|split]]]]].
  - rewrite validateSender_runs, <- !test_matches.
    rewrite !test_Repeat by lia. tauto.
  - apply validateSender_runs.
  - reflexivity.
  - exact Hno.
  - intros c Hin Hc. apply (Hno c Hin). now apply isWhiteSpace_not_isAlnum.
  - intros Hl _ Hd. destruct (validateSender s) eqn:V; [|reflexivity].
    apply validateSender_runs in V as [[H _]|[_ H]]; [lia | congruence].
  - intros Hl _. destruct (validateSender s) eqn:V; [|reflexivity].
    apply validateSender_runs in V as [[H _]|[H _]]; lia.
Qed.

Lemma validateSender_spec_witness :
  validateSender (lit "1234567890123456") = true.
Proof.
  apply (proj2 (proj1 (proj2 (validateSender_spec (lit "1234567890123456"))))).
  right. split; [simpl; lia | reflexivity].
Defined.

(** *** Error classification *)

(** C9.  [isRetryable] holds exactly for the codes 4002, 4003 and 4006,
    [isAuthenticationError] exactly for 1002 to 1007, and
    [isInsufficientCredits] exactly for 1001; each depends on the stored
    code alone. *)
Theorem classification_by_code (e : BudgetSMSError) :
  (isRetryable e = true <-> In (code e) [4002; 4003; 4006]%Z)
  /\ (isAuthenticationError e = true <->
        In (code e) [1002; 1003; 1004; 1005; 1006; 1007]%Z)
  /\ (isInsufficientCredits e = true <-> code e = 1001%Z)
  /\ (forall e' : BudgetSMSError, code e' = code e ->
        isRetryable e' = isRetryable e
        /\ isAuthenticationError e' = isAuthenticationError e
        /\ isInsufficientCredits e' = isInsufficientCredits e).
Proof.
  split; [|split; [|split]].
  - unfold isRetryable. rewrite existsb_exists. split.
    + intros (x & Hin & Hx). apply Z.eqb_eq in Hx. now rewrite Hx.
    + intros H. exists (code e). split; [exact H | apply Z.eqb_refl].
  - unfold isAuthenticationError. rewrite existsb_exists. split.
    + intros (x & Hin & Hx). apply Z.eqb_eq in Hx. now rewrite Hx.
    + intros H. exists (code e). split; [exact H | apply Z.eqb_refl].
  - unfold isInsufficientCredits. apply Z.eqb_eq.
  - intros e' E. unfold isRetryable, isAuthenticationError, isInsufficientCredits.
    now rewrite E.
Qed.

Lemma classification_by_code_witness :
  isRetryable (mkBudgetSMSError 4006 (lit "Gateway not reachable")) = true.
Proof.
  apply (proj2 (proj1 (classification_by_code
                         (mkBudgetSMSError 4006 (lit "Gateway not reachable"))))).
  simpl. auto.
Defined.

(** *** trim *)

Lemma dropWhile_app_stop (p : N -> bool) (x : jsstring) (c : N) (y : jsstring) :
  p c = false -> dropWhile p (x ++ c :: y) = dropWhile p x ++ c :: y.
Proof.
  intros Hc. induction x as [|d x IH]; simpl.
  - now rewrite Hc.
  - destruct (p d); [exact IH | reflexivity].
Qed.

Lemma dropWhile_idem (p : N -> bool) (s : jsstring) :
  dropWhile p (dropWhile p s) = dropWhile p s.
Proof.
  destruct (dropWhile p s) as [|c r] eqn:E; [reflexivity|].
  apply dropWhile_head in E. simpl. now rewrite E.
Qed.

Lemma trimStart_trim (s : jsstring) : trimStart (trim s) = trim s.
Proof.
  unfold trim, trimEnd, trimStart.
  destruct (dropWhile isWhiteSpace s) as [|c d] eqn:E; [reflexivity|].
  apply dropWhile_head in E. simpl rev.
  rewrite (@dropWhile_app_stop _ (rev d) c [] E), rev_app_distr. simpl.
  now rewrite E.
Qed.

Lemma trim_idem (s : jsstring) : trim (trim s) = trim s.
Proof.
  unfold trim at 1. rewrite trimStart_trim.
  unfold trim, trimEnd. now rewrite rev_involutive, dropWhile_idem.
Qed.

(** *** parseInt *)

Lemma isDigit_not_space (c : N) : isDigit c = true -> isWhiteSpace c = false.
Proof.
  intros H. destruct (isWhiteSpace c) eqn:W; [|reflexivity].
  bools H. bools W. lia.
Qed.

Lemma takeSign_digit (c : N) (s : jsstring) :
  isDigit c = true -> takeSign (c :: s) = (false, c :: s).
Proof.
  intros H. unfold takeSign.
  destruct (N.eqb_spec c (ch "-")) as [->|_]; [discriminate H|].
  destruct (N.eqb_spec c (ch "+")) as [->|_]; [discriminate H|].
  reflexivity.
Qed.

Lemma takeWhile_app_stop (p : N -> bool) (ds rest : jsstring) :
  forallb p ds = true ->
  match rest with c :: _ => p c = false | [] => True end ->
  takeWhile p (ds ++ rest) = ds /\ dropWhile p (ds ++ rest) = rest.
Proof.
  intros Hds Hrest. induction ds as [|d ds IH]; simpl in *.
  - destruct rest as [|c r]; simpl; [auto | now rewrite Hrest].
  - apply andb_true_iff in Hds as [-> Hds]. destruct (IH Hds) as [-> ->]. auto.
Qed.

Lemma parseInt_NaN_iff (s : jsstring) : parseInt s = INaN <-> startsInteger s = false.
Proof.
  unfold parseInt, scanInt, startsInteger.
  destruct (takeSign (trimStart s)) as [neg u]; simpl.
  destruct u as [|c u]; simpl; [tauto|].
  destruct (isDigit c); simpl; split; congruence.
Qed.

Lemma takeSign_shape (s u : jsstring) (neg : bool) :
  takeSign s = (neg, u) ->
  (s = u /\ neg = false /\ match u with
                           | c :: _ => c <> ch "-" /\ c <> ch "+"
                           | [] => True
                           end)
  \/ (s = lit "+" ++ u /\ neg = false)
  \/ (s = lit "-" ++ u /\ neg = true).
Proof.
  unfold takeSign. destruct s as [|c r].
  - intros E. injection E as <- <-. left. auto.
  - destruct (N.eqb_spec c (ch "-")) as [->|Hm].
    + intros E. injection E as <- <-. right. right. auto.
    + destruct (N.eqb_spec c (ch "+")) as [->|Hp].
      * intros E. injection E as <- <-. right. left. auto.
      * intros E. injection E as <- <-. left. auto.
Qed.

(** [parseInt] yields the integer [n] exactly when the left-trimmed text
    is an integer prefix of value [n] followed by anything. *)
Lemma parseInt_prefix (s : jsstring) (n : Z) :
  parseInt s = IInt n <-> exists rest, integerPrefix (trimStart s) n rest.
Proof.
  unfold parseInt, scanInt. split.
  - destruct (takeSign (trimStart s)) as [neg u] eqn:TS.
    destruct (takeWhile isDigit u) as [|d ds] eqn:TW; [discriminate|].
    intros E. injection E as <-.
    exists (dropWhile isDigit u).
    assert (Hu : u = (d :: ds) ++ dropWhile isDigit u)
      by (rewrite <- TW; symmetry; apply takeWhile_dropWhile).
    assert (Hall : forallb isDigit (d :: ds) = true)
      by (rewrite <- TW; apply takeWhile_all).
    assert (Hstop : match dropWhile isDigit u with
                    | c :: _ => isDigit c = false
                    | [] => True
                    end).
    { destruct (dropWhile isDigit u) as [|c r] eqn:DW; [exact I|].
      now apply (dropWhile_head _ _ DW). }
    destruct (takeSign_shape _ TS) as [[E [Hn _]]|[[E Hn]|[E Hn]]]; subst neg.
    + exists [], (d :: ds). rewrite E. cbn [app]. repeat split; auto. discriminate.
    + exists (lit "+"), (d :: ds). rewrite E, Hu at 1.
      repeat split; auto. discriminate.
    + exists (lit "-"), (d :: ds). rewrite E, Hu at 1.
      repeat split; auto. discriminate.
  - intros (rest & sign & ds & Ht & Hsign & Hne & Hall & Hstop & ->).
    rewrite Ht. destruct ds as [|d ds]; [congruence|].
    assert (Hd : isDigit d = true)
      by (cbn [forallb] in Hall; now apply andb_true_iff in Hall).
    destruct (@takeWhile_app_stop isDigit (d :: ds) rest Hall Hstop) as [TW _].
    destruct Hsign as [ -> | [ -> | -> ] ].
    + cbn [app]. rewrite (@takeSign_digit d _ Hd).
      change (d :: ds ++ rest) with ((d :: ds) ++ rest). now rewrite TW.
    + change (takeSign (lit "+" ++ (d :: ds) ++ rest))
        with (false, (d :: ds) ++ rest). cbv beta iota. now rewrite TW.
    + change (takeSign (lit "-" ++ (d :: ds) ++ rest))
        with (true, (d :: ds) ++ rest). cbv beta iota. now rewrite TW.
Qed.

(** On a run of digits followed by something that is not a digit,
    [parseInt] is the value of the run. *)
Lemma parseInt_digits (d : N) (ds rest : jsstring) :
  forallb isDigit (d :: ds) = true ->
  match rest with c :: _ => isDigit c = false | [] => True end ->
  parseInt ((d :: ds) ++ rest) = IInt (digitsValue (d :: ds)).
Proof.
  intros Hds Hrest.
  assert (Hd : isDigit d = true) by (simpl in Hds; now apply andb_true_iff in Hds).
  unfold parseInt, scanInt, trimStart.
  rewrite dropWhile_fixed by (simpl; now apply isDigit_not_space).
  simpl app. rewrite (@takeSign_digit d _ Hd).
  change (d :: ds ++ rest) with ((d :: ds) ++ rest).
  destruct (@takeWhile_app_stop isDigit (d :: ds) rest Hds Hrest) as [-> _].
  reflexivity.
Qed.

(** *** The message table *)

Lemma ERROR_MESSAGES_known (n : Z) (m : string) :
  In (n, m) ERROR_MESSAGES -> ERROR_MESSAGES_get n = Some (lit m).
Proof.
  assert (H : forallb (fun kv =>
                match ERROR_MESSAGES_get (fst kv) with
                | Some x => str_eqb x (lit (snd kv))
                | None => false
                end) ERROR_MESSAGES = true) by (vm_compute; reflexivity).
  rewrite forallb_forall in H. intros Hin. specialize (H _ Hin). simpl in H.
  destruct (ERROR_MESSAGES_get n); [|discriminate].
  apply str_eqb_eq in H. now subst.
Qed.

Lemma ERROR_MESSAGES_unknown (n : Z) :
  (forall m, ~ In (n, m) ERROR_MESSAGES) -> ERROR_MESSAGES_get n = None.
Proof.
  intros H. unfold ERROR_MESSAGES_get.
  destruct (find _ ERROR_MESSAGES) as [[k m]|] eqn:F; [|reflexivity].
  apply find_some in F as [Hin Hk]. simpl in Hk. apply Z.eqb_eq in Hk. subst k.
  now destruct (H m).
Qed.

Lemma ERROR_MESSAGES_nonempty (n : Z) (m : string) :
  In (n, m) ERROR_MESSAGES -> lit m <> [].
Proof.
  assert (H : forallb (fun kv => negb (str_eqb (lit (snd kv)) []))
                      ERROR_MESSAGES = true)
    by (vm_compute; reflexivity).
  rewrite forallb_forall in H. intros Hin E. specialize (H _ Hin).
  simpl in H. rewrite E in H. discriminate H.
Qed.

Lemma new_BudgetSMSError_known (n : Z) (m : string) :
  In (n, m) ERROR_MESSAGES -> new_BudgetSMSError n None = mkBudgetSMSError n (lit m).
Proof.
  intros Hin. unfold new_BudgetSMSError. simpl orElse at 1.
  rewrite (ERROR_MESSAGES_known Hin).
  pose proof (ERROR_MESSAGES_nonempty Hin) as E.
  destruct (lit m); [now destruct E | reflexivity].
Qed.

Lemma new_BudgetSMSError_unknown (n : Z) :
  (forall m, ~ In (n, m) ERROR_MESSAGES) ->
  new_BudgetSMSError n None
  = mkBudgetSMSError n (lit "BudgetSMS API error: " ++ Z_toString n).
Proof.
  intros H. unfold new_BudgetSMSError. now rewrite (ERROR_MESSAGES_unknown H).
Qed.

(** *** parseResponse *)

Lemma parseResponse_trim (response : jsstring) :
  parseResponse (trim response) = parseResponse response.
Proof. unfold parseResponse. now rewrite trim_idem. Qed.

Lemma startsWith_OK_not_ERR (t : jsstring) :
  startsWith t (lit "OK ") = true -> startsWith t (lit "ERR ") = false.
Proof.
  intros H. apply startsWith_split in H. rewrite H. reflexivity.
Qed.

(** C1, as stated, fails: the message thrown for "GARBAGE" begins with a
    capital U, so it does not contain the phrase "unexpected API response
    format". *)
Lemma parseResponse_message_case :
  parseResponse (lit "GARBAGE")
  = Throw (Error (lit "Unexpected API response format: GARBAGE"))
  /\ includes (lit "Unexpected API response format: GARBAGE")
              (lit "unexpected API response format") = false
  /\ ~ (forall response : jsstring,
          trim response <> lit "OK" ->
          startsWith (trim response) (lit "OK ") = false ->
          startsWith (trim response) (lit "ERR ") = false ->
          exists m : jsstring,
            parseResponse response = Throw (Error m)
            /\ includes m (lit "unexpected API response format") = true).
Proof.
  split; [vm_compute; reflexivity|]. split; [vm_compute; reflexivity|].
  intros H.
  destruct (H (lit "GARBAGE")) as (m & E & I);
    [vm_compute; discriminate | reflexivity | reflexivity |].
  vm_compute in E. injection E as <-. vm_compute in I. discriminate I.
Qed.

(** C1, amended.  [parseResponse] looks at its argument only through the
    trimmed text.  When that text is exactly OK the payload is the empty
    string; when it starts with OK and a space the payload is the trimmed
    remainder; when it has neither shape nor the ERR prefix the call throws
    a plain Error whose message is "Unexpected API response format: "
    followed by the trimmed text, which contains the phrase "Unexpected API
    response format" with its capital U.  The four sample inputs behave as
    listed: "OK 12345" gives "12345", "OK" gives the empty string, "ERR 1001"
    throws a BudgetSMSError with code 1001, "GARBAGE" throws the plain
    Error. *)
Theorem parseResponse_envelope (response : jsstring) :
  let trimmed := trim response in
  parseResponse (trim response) = parseResponse response
  /\ (trimmed = lit "OK" -> parseResponse response = Return [])
  /\ (startsWith trimmed (lit "OK ") = true ->
      parseResponse response = Return (trim (substring trimmed 3)))
  /\ (trimmed <> lit "OK" ->
      startsWith trimmed (lit "OK ") = false ->
      startsWith trimmed (lit "ERR ") = false ->
      parseResponse response
        = Throw (Error (lit "Unexpected API response format: " ++ trimmed))
      /\ includes (lit "Unexpected API response format: " ++ trimmed)
                  (lit "Unexpected API response format") = true)
  /\ parseResponse (lit "OK 12345") = Return (lit "12345")
  /\ parseResponse (lit "OK") = Return []
  /\ parseResponse (lit "ERR 1001")
       = Throw (OfBudgetSMSError
                  (mkBudgetSMSError 1001 (lit "Not enough credits to send messages")))
  /\ parseResponse (lit "GARBAGE")
       = Throw (Error (lit "Unexpected API response format: GARBAGE")).
Proof.
  intros trimmed.
  split; [apply parseResponse_trim|].
  split; [|split; [|split; [|repeat split; vm_compute; reflexivity]]].
  - intros E. unfold parseResponse. fold trimmed. rewrite E. reflexivity.
  - intros H. unfold parseResponse. fold trimmed.
    now rewrite (startsWith_OK_not_ERR _ H), H.
  - intros Hne Hok Herr. split.
    + unfold parseResponse. fold trimmed. rewrite Herr, Hok.
      destruct (str_eqb trimmed (lit "OK")) eqn:E; [|reflexivity].
      apply str_eqb_eq in E. contradiction.
    + apply includes_prefix.
      change (lit "Unexpected API response format: ")
        with (lit "Unexpected API response format" ++ lit ": ").
      rewrite <- app_assoc. apply startsWith_app.
Qed.

Lemma parseResponse_envelope_witness :
  parseResponse (lit "  OK 7 ") = Return (lit "7").
Proof.
  exact (proj1 (proj2 (proj2 (parseResponse_envelope (lit "  OK 7 ")))) eq_refl).
Defined.

(** C3, as stated, fails: the remainder "12abc" is not a decimal integer,
    yet the call throws a BudgetSMSError with code 12 instead of the plain
    Error for a malformed line. *)
Lemma parseResponse_ERR_not_integer :
  integerText (lit "12abc") = false
  /\ parseResponse (lit "ERR 12abc")
     = Throw (OfBudgetSMSError (mkBudgetSMSError 12 (lit "BudgetSMS API error: 12")))
  /\ ~ (forall response : jsstring,
          startsWith (trim response) (lit "ERR ") = true ->
          integerText (substring (trim response) 4) = false ->
          exists m : jsstring, parseResponse response = Throw (Error m)).
Proof.
  split; [vm_compute; reflexivity|]. split; [vm_compute; reflexivity|].
  intros H.
  destruct (H (lit "ERR 12abc") eq_refl eq_refl) as [m E].
  vm_compute in E. discriminate E.
Qed.

(** C3, amended.  When the trimmed text starts with ERR and a space, the
    remainder goes through [parseInt].  A plain Error "Invalid error
    response format: ..." is thrown exactly when the remainder, after
    leading white space and an optional sign, does not go on with a digit.
    Otherwise a BudgetSMSError is thrown, and what follows the digits is
    ignored.  When the integer written by the optional sign and the leading
    run of digits is a safe integer, the code is that integer, whatever it
    is; the message is then the table entry when the code is in
    [ERROR_MESSAGES], and "BudgetSMS API error: " followed by the code in
    decimal when it is not. *)
Theorem parseResponse_ERR (response : jsstring) :
  let trimmed := trim response in
  let remainder := substring trimmed 4 in
  startsWith trimmed (lit "ERR ") = true ->
  (startsInteger remainder = false <->
     parseResponse response
     = Throw (Error (lit "Invalid error response format: " ++ trimmed)))
  /\ (startsInteger remainder = true ->
      exists e : BudgetSMSError, parseResponse response = Throw (OfBudgetSMSError e))
  /\ (forall (n : Z) (rest : jsstring),
        integerPrefix (trimStart remainder) n rest ->
        safeInteger n ->
        exists e : BudgetSMSError,
          parseResponse response = Throw (OfBudgetSMSError e)
          /\ code e = n
          /\ (forall m, In (n, m) ERROR_MESSAGES -> message e = lit m)
          /\ ((forall m, ~ In (n, m) ERROR_MESSAGES) ->
              message e = lit "BudgetSMS API error: " ++ Z_toString n)).
Proof.
  intros trimmed remainder Herr.
  assert (R : parseResponse response
              = match parseInt remainder with
                | INaN => Throw (Error (lit "Invalid error response format: " ++ trimmed))
                | IInt errorCode =>
                    Throw (OfBudgetSMSError (new_BudgetSMSError errorCode None))
                end).
  { unfold parseResponse. fold trimmed. now rewrite Herr. }
  split; [|split].
  - rewrite <- parseInt_NaN_iff, R.
    destruct (parseInt remainder); split; congruence.
  - intros S. rewrite R. destruct (parseInt remainder) as [|n] eqn:E.
    + apply parseInt_NaN_iff in E. congruence.
    + now exists (new_BudgetSMSError n None).
  - intros n rest P _.
    assert (E : parseInt remainder = IInt n)
      by (apply parseInt_prefix; now exists rest).
    exists (new_BudgetSMSError n None).
    split; [now rewrite R, E|]. split; [reflexivity|]. split.
    + intros m Hin. now rewrite (new_BudgetSMSError_known Hin).
    + intros Hno. now rewrite (new_BudgetSMSError_unknown Hno).
Qed.

Lemma parseResponse_ERR_witness :
  exists e : BudgetSMSError,
    parseResponse (lit "ERR 9999 (unlisted)") = Throw (OfBudgetSMSError e)
    /\ code e = 9999%Z
    /\ message e = lit "BudgetSMS API error: 9999".
Proof.
  assert (P : integerPrefix (trimStart (lit "9999 (unlisted)")) 9999 (lit " (unlisted)")).
  { exists [], (lit "9999"). repeat split; try reflexivity.
    - now left.
    - discriminate. }
  assert (S : safeInteger 9999) by (unfold safeInteger; lia).
  destruct (proj2 (proj2 (@parseResponse_ERR (lit "ERR 9999 (unlisted)") eq_refl))
              9999%Z (lit " (unlisted)") P S) as (e & H1 & H2 & _ & H4).
  exists e. split; [exact H1 | split; [exact H2|]].
  apply H4. intros m Hin. vm_compute in Hin.
  repeat (destruct Hin as [Hin|Hin]; [discriminate Hin|]). exact Hin.
Defined.

(** *** split *)

Lemma splitSpaces_nonempty (s : jsstring) :
  forall inRun cur, splitSpaces inRun cur s <> [].
Proof.
  induction s as [|c s IH]; intros inRun cur; simpl; [discriminate|].
  destruct (isWhiteSpace c); [destruct inRun|]; try discriminate; apply IH.
Qed.

Lemma split_ws_nonempty (s : jsstring) : split_ws s <> [].
Proof. apply splitSpaces_nonempty. Qed.

Lemma splitOn_length (sep : N) (s : jsstring) :
  forall cur, List.length (splitOn sep cur s) = S (count_occ N.eq_dec s sep).
Proof.
  induction s as [|c s IH]; intros cur; simpl; [reflexivity|].
  destruct (N.eqb_spec c sep) as [E|E]; destruct (N.eq_dec c sep) as [E'|E'].
  - simpl. now rewrite IH.
  - contradiction.
  - contradiction.
  - apply IH.
Qed.

Lemma split_length (s : jsstring) (sep : N) :
  List.length (split s sep) = S (count_occ N.eq_dec s sep).
Proof. apply splitOn_length. Qed.

(** *** parseSendSMSResponse *)

(** C2.  What the code does on an empty payload: [split_ws] of the empty
    string is the one-element array holding the empty string, and no
    payload at all splits into zero pieces, so the length test for "no SMS
    ID" never fires; whatever the flags, the call returns a result whose
    [smsId] is the empty string. *)
Theorem parseSendSMSResponse_empty_payload (response : jsstring)
    (includePrice includeMccMnc includeCredit : option bool) :
  parseResponse response = Return [] ->
  split_ws [] = [[]]
  /\ (forall payload : jsstring, List.length (split_ws payload) <> 0)
  /\ parseSendSMSResponse response includePrice includeMccMnc includeCredit
     = Return (mkSendSMSResponse true [] None None None None).
Proof.
  intros H. split; [reflexivity|]. split.
  { intros payload E. apply length_zero_iff_nil in E.
    now apply (split_ws_nonempty payload). }
  unfold parseSendSMSResponse. rewrite H. simpl.
  destruct (truthy includePrice), (truthy includeMccMnc), (truthy includeCredit);
    reflexivity.
Qed.

Lemma parseSendSMSResponse_empty_payload_witness :
  parseSendSMSResponse (lit "OK") (Some true) (Some true) (Some true)
  = Return (mkSendSMSResponse true [] None None None None).
Proof.
  exact (proj2 (proj2 (@parseSendSMSResponse_empty_payload (lit "OK")
                         (Some true) (Some true) (Some true) eq_refl))).
Defined.

(** C4.  On a successful envelope the payload is split on runs of white
    space; the first token is the message ID and the tokens after it are
    consumed from left to right as [sendResult] describes: price and part
    count when [includePrice] is set and two tokens remain, otherwise both
    are left out without an error; then MCC/MNC when [includeMccMnc] is set
    and a token remains; then credit when [includeCredit] is set and a token
    remains.  On "OK 12345678 0.055 1 20416" with price and MCC/MNC wanted
    the result is smsId "12345678", price 0.055, parts 1, mccMnc "20416" and
    no credit. *)
Theorem parseSendSMSResponse_fields (response : jsstring)
    (includePrice includeMccMnc includeCredit : option bool) :
  (forall payload : jsstring,
     parseResponse response = Return payload ->
     exists id rest,
       split_ws payload = id :: rest
       /\ parseSendSMSResponse response includePrice includeMccMnc includeCredit
          = Return (sendResult id rest (truthy includePrice)
                      (truthy includeMccMnc) (truthy includeCredit)))
  /\ parseSendSMSResponse (lit "OK 12345678 0.055 1 20416") (Some true) (Some true) None
     = Return (mkSendSMSResponse true (lit "12345678")
                 (Some (Finite (decimal 55 (-3)))) (Some (IInt 1))
                 (Some (lit "20416")) None).
Proof.
  split; [|vm_compute; reflexivity].
  intros payload H.
  unfold parseSendSMSResponse. rewrite H. cbn [bind].
  destruct (split_ws payload) as [|id rest] eqn:E;
    [now destruct (split_ws_nonempty payload)|].
  exists id, rest. split; [reflexivity|].
  destruct (truthy includePrice), (truthy includeMccMnc), (truthy includeCredit);
    destruct rest as [|a [|b [|c [|d more]]]]; reflexivity.
Qed.

Lemma parseSendSMSResponse_fields_witness :
  parseSendSMSResponse (lit "OK 12345678 0.055 1 20416 100.50")
    (Some true) (Some true) (Some true)
  = Return (mkSendSMSResponse true (lit "12345678")
              (Some (Finite (decimal 55 (-3)))) (Some (IInt 1))
              (Some (lit "20416")) (Some (Finite (decimal 1005 (-1))))).
Proof.
  destruct (proj1 (parseSendSMSResponse_fields
                     (lit "OK 12345678 0.055 1 20416 100.50")
                     (Some true) (Some true) (Some true))
              (lit "12345678 0.055 1 20416 100.50") eq_refl)
    as (id & rest & E & R).
  vm_compute in E. injection E as <- <-. rewrite R. vm_compute. reflexivity.
Defined.

(** *** parseSMSStatusResponse *)

(** C5, as stated, fails: the payload "1.5" is not an integer, yet the
    call returns the status 1 instead of throwing. *)
Lemma parseSMSStatusResponse_not_integer :
  parseResponse (lit "OK 1.5") = Return (lit "1.5")
  /\ integerText (lit "1.5") = false
  /\ parseSMSStatusResponse (lit "OK 1.5") (lit "12345678")
     = Return (mkSMSStatusResponse true (lit "12345678") 1)
  /\ ~ (forall response payload smsId : jsstring,
          parseResponse response = Return payload ->
          integerText payload = false ->
          exists e, parseSMSStatusResponse response smsId = Throw e).
Proof.
  split; [|split; [|split]]; try (vm_compute; reflexivity).
  intros H.
  destruct (H (lit "OK 1.5") (lit "1.5") (lit "12345678") eq_refl eq_refl) as [e He].
  discriminate He.
Qed.

(** C5, amended.  On a successful envelope the payload goes through
    [parseInt].  The call throws a plain Error "Invalid status response: ..."
    exactly when the payload, after an optional sign, does not go on with a
    digit.  Otherwise it returns a result with the given [smsId]; what
    follows the leading digits is ignored.  For a safe integer [n], the
    status returned is [n] exactly when the optional sign and the leading
    run of digits of the payload write [n].  The status is not checked
    against [DLRStatus]: 9, 10 and 99 are returned as they are. *)
Theorem parseSMSStatusResponse_status (response payload smsId : jsstring) :
  parseResponse response = Return payload ->
  (startsInteger payload = false <->
     parseSMSStatusResponse response smsId
     = Throw (Error (lit "Invalid status response: " ++ payload)))
  /\ (startsInteger payload = true ->
      exists r : SMSStatusResponse,
        parseSMSStatusResponse response smsId = Return r
        /\ st_success r = true /\ st_smsId r = smsId)
  /\ (forall n : Z,
        safeInteger n ->
        (parseSMSStatusResponse response smsId
         = Return (mkSMSStatusResponse true smsId n)
         <-> exists rest, integerPrefix (trimStart payload) n rest))
  /\ (forall n : Z, In n [9; 10; 99]%Z ->
        ~ In n DLRStatus
        /\ parseSMSStatusResponse (lit "OK " ++ Z_toString n) smsId
           = Return (mkSMSStatusResponse true smsId n)).
Proof.
  intros H.
  assert (R : parseSMSStatusResponse response smsId
              = match parseInt payload with
                | INaN => Throw (Error (lit "Invalid status response: " ++ payload))
                | IInt status => Return (mkSMSStatusResponse true smsId status)
                end).
  { unfold parseSMSStatusResponse. now rewrite H. }
  split; [|split; [|split]].
  - rewrite <- parseInt_NaN_iff, R.
    destruct (parseInt payload); split; congruence.
  - intros S. rewrite R. destruct (parseInt payload) as [|n] eqn:E.
    + apply parseInt_NaN_iff in E. congruence.
    + exists (mkSMSStatusResponse true smsId n). auto.
  - intros n _. rewrite <- parseInt_prefix, R.
    destruct (parseInt payload); split; congruence.
  - intros n Hin. simpl in Hin.
    destruct Hin as [<-|[<-|[<-|[]]]]; (split; [|reflexivity]);
      intros Hin; simpl in Hin; intuition discriminate.
Qed.

Lemma parseSMSStatusResponse_status_witness :
  parseSMSStatusResponse (lit "OK 13 (unknown)") (lit "12345678")
  = Return (mkSMSStatusResponse true (lit "12345678") 13).
Proof.
  assert (S : safeInteger 13) by (unfold safeInteger; lia).
  apply (proj1 (proj2 (proj2
           (@parseSMSStatusResponse_status (lit "OK 13 (unknown)")
              (lit "13 (unknown)") (lit "12345678") eq_refl))) 13%Z S).
  exists (lit " (unknown)"), [], (lit "13"). repeat split; try reflexivity.
  - now left.
  - discriminate.
Defined.

(** *** parseOperatorResponse *)

(** C6.  On a successful envelope the payload is split on colons, which
    gives one part more than there are colons.  With fewer than 3 parts, and
    only then, the call throws; the exception is a plain Error "Invalid
    operator response format: ...".  With 3 parts or more it returns the
    first as MCC/MNC, the second as operator name and [parseFloat] of the
    third as message cost; further parts play no role. *)
Theorem parseOperatorResponse_parts (response payload : jsstring) :
  parseResponse response = Return payload ->
  let parts := split payload (ch ":") in
  List.length parts = S (count_occ N.eq_dec payload (ch ":"))
  /\ (List.length parts < 3 ->
      parseOperatorResponse response
      = Throw (Error (lit "Invalid operator response format: " ++ payload)))
  /\ (3 <= List.length parts ->
      exists a b c more,
        parts = a :: b :: c :: more
        /\ parseOperatorResponse response
           = Return (mkOperatorResponse true a b (parseFloat c)))
  /\ ((exists e, parseOperatorResponse response = Throw e) <-> List.length parts < 3).
Proof.
  intros H parts.
  assert (Hlt : List.length parts < 3 ->
                parseOperatorResponse response
                = Throw (Error (lit "Invalid operator response format: " ++ payload))).
  { intros L. unfold parseOperatorResponse. rewrite H. cbn [bind]. fold parts.
    apply Nat.ltb_lt in L. now rewrite L. }
  assert (Hge : 3 <= List.length parts ->
                exists a b c more,
                  parts = a :: b :: c :: more
                  /\ parseOperatorResponse response
                     = Return (mkOperatorResponse true a b (parseFloat c))).
  { intros L. unfold parseOperatorResponse. rewrite H. cbn [bind]. fold parts.
    destruct parts as [|a [|b [|c more]]]; simpl in L; try lia.
    exists a, b, c, more. split; reflexivity. }
  split; [apply split_length|]. split; [exact Hlt|]. split; [exact Hge|].
  split.
  - intros [e He]. destruct (Nat.lt_ge_cases (List.length parts) 3) as [L|L]; [exact L|].
    destruct (Hge L) as (a & b & c & more & _ & R). congruence.
  - intros L. eexists. now apply Hlt.
Qed.

Lemma parseOperatorResponse_parts_witness :
  parseOperatorResponse (lit "OK 20416:T-Mobile Netherlands BV:0.0450")
  = Return (mkOperatorResponse true (lit "20416") (lit "T-Mobile Netherlands BV")
              (Finite (decimal 45 (-3)))).
Proof.
  destruct (proj1 (proj2 (proj2
              (@parseOperatorResponse_parts
                 (lit "OK 20416:T-Mobile Netherlands BV:0.0450")
                 (lit "20416:T-Mobile Netherlands BV:0.0450") eq_refl))))
    as (a & b & c & more & E & R).
  - vm_compute. lia.
  - vm_compute in E. injection E as <- <- <- <-. rewrite R. vm_compute. reflexivity.
Defined.

(** *** parseFloat *)

Lemma parseFloat_NaN_iff (s : jsstring) : parseFloat s = NaN <-> startsDecimal s = false.
Proof.
  unfold parseFloat, scanFloat, startsDecimal.
  destruct (takeSign (trimStart s)) as [neg u]. cbn [snd].
  destruct (startsWith u (lit "Infinity")); [split; discriminate|].
  cbn [orb].
  destruct u as [|c r]; [simpl; tauto|].
  destruct (isDigit c) eqn:D.
  - cbn [takeWhile dropWhile orb]. rewrite D.
    destruct (scanFraction _ _) as [fp r2]. cbn [app].
    destruct (scanExponent r2) as [ex r3]. split; discriminate.
  - cbn [takeWhile dropWhile orb]. rewrite D. unfold scanFraction.
    destruct (N.eqb c (ch ".")); [|simpl; tauto].
    destruct r as [|d r]; [simpl; tauto|].
    cbn [takeWhile dropWhile andb].
    destruct (isDigit d); [|simpl; tauto].
    cbn [app]. destruct (scanExponent _) as [ex r3]. split; discriminate.
Qed.

(** On a run of digits followed by something that cannot extend the
    literal, [parseFloat] is the value of the run. *)
Lemma parseFloat_digits (d : N) (ds rest : jsstring) :
  forallb isDigit (d :: ds) = true ->
  endsLiteral rest = true ->
  parseFloat ((d :: ds) ++ rest) = Finite (decimal (digitsValue (d :: ds)) 0).
Proof.
  intros Hds Hrest.
  assert (Hd : isDigit d = true) by (simpl in Hds; now apply andb_true_iff in Hds).
  assert (Hc : match rest with
               | c :: _ => isDigit c = false /\ N.eqb c (ch ".") = false
                           /\ N.eqb c (ch "e") = false /\ N.eqb c (ch "E") = false
               | [] => True
               end).
  { destruct rest as [|c r]; [exact I|]. unfold endsLiteral in Hrest.
    apply negb_true_iff in Hrest. rewrite !orb_false_iff in Hrest. tauto. }
  assert (Hstop : match rest with c :: _ => isDigit c = false | [] => True end).
  { destruct rest as [|c r]; [exact I | apply Hc]. }
  unfold parseFloat, scanFloat, trimStart.
  rewrite dropWhile_fixed by (simpl; now apply isDigit_not_space).
  simpl app. rewrite (@takeSign_digit d _ Hd).
  assert (HI : startsWith (d :: ds ++ rest) (lit "Infinity") = false).
  { simpl. destruct (N.eqb_spec d 73) as [->|_]; [discriminate Hd | reflexivity]. }
  rewrite HI.
  change (d :: ds ++ rest) with ((d :: ds) ++ rest).
  destruct (@takeWhile_app_stop isDigit (d :: ds) rest Hds Hstop) as [-> ->].
  assert (HF : scanFraction (d :: ds) rest = ([], rest)).
  { destruct rest as [|c r]; [reflexivity|]. unfold scanFraction.
    destruct Hc as (_ & -> & _). reflexivity. }
  assert (HE : scanExponent rest = (0%Z, rest)).
  { destruct rest as [|c r]; [reflexivity|]. unfold scanExponent.
    destruct Hc as (_ & _ & -> & ->). reflexivity. }
  rewrite HF, app_nil_r. cbn [app]. rewrite HE. reflexivity.
Qed.

(** C8, as stated, fails: the third part "0.04EUR" is not numeric, yet the
    cost returned is 0.04, not NaN. *)
Lemma parseOperatorResponse_cost_not_NaN :
  numericText (lit "0.04EUR") = false
  /\ parseOperatorResponse (lit "OK 20416:T-Mobile:0.04EUR")
     = Return (mkOperatorResponse true (lit "20416") (lit "T-Mobile")
                 (Finite (decimal 4 (-2))))
  /\ ~ (forall (response payload a b c : jsstring) (more : list jsstring),
          parseResponse response = Return payload ->
          split payload (ch ":") = a :: b :: c :: more ->
          numericText c = false ->
          parseOperatorResponse response
          = Return (mkOperatorResponse true a b NaN)).
Proof.
  split; [|split]; try (vm_compute; reflexivity).
  intros H.
  specialize (H (lit "OK 20416:T-Mobile:0.04EUR") (lit "20416:T-Mobile:0.04EUR")
                (lit "20416") (lit "T-Mobile") (lit "0.04EUR") []
                eq_refl eq_refl eq_refl).
  discriminate H.
Qed.

(** C8, amended.  On a successful envelope whose payload has at least 3
    colon-separated parts the call returns, whatever the third part is; the
    cost is [parseFloat] of the third part, with no check that the part is
    numeric.  The cost is NaN exactly when the third part, after leading
    white space and an optional sign, does not go on with a digit, a dot and
    a digit, or Infinity; otherwise it is the value of the leading literal
    and the text after that literal is ignored: on a run of digits followed
    by any code unit other than a digit, a dot or an exponent mark, the cost
    is the number the digits denote. *)
Theorem parseOperatorResponse_cost (response payload a b c : jsstring)
    (more : list jsstring) :
  parseResponse response = Return payload ->
  split payload (ch ":") = a :: b :: c :: more ->
  parseOperatorResponse response
  = Return (mkOperatorResponse true a b (parseFloat c))
  /\ (parseFloat c = NaN <-> startsDecimal c = false)
  /\ (forall d ds rest,
        c = (d :: ds) ++ rest ->
        forallb isDigit (d :: ds) = true ->
        endsLiteral rest = true ->
        parseFloat c = Finite (decimal (digitsValue (d :: ds)) 0)).
Proof.
  intros H E. split; [|split].
  - unfold parseOperatorResponse. rewrite H. cbn [bind]. rewrite E. reflexivity.
  - apply parseFloat_NaN_iff.
  - intros d ds rest -> Hds Hrest. now apply parseFloat_digits.
Qed.

Lemma parseOperatorResponse_cost_witness :
  parseOperatorResponse (lit "OK 20416:T-Mobile:n/a")
  = Return (mkOperatorResponse true (lit "20416") (lit "T-Mobile") NaN).
Proof.
  exact (proj1 (@parseOperatorResponse_cost (lit "OK 20416:T-Mobile:n/a")
                  (lit "20416:T-Mobile:n/a") (lit "20416") (lit "T-Mobile")
                  (lit "n/a") [] eq_refl eq_refl)).
Defined.

(** *** encodeURIComponent *)

Lemma isUnreserved_range (c : N) : isUnreserved c = true -> (c < 128)%N.
Proof.
  unfold isUnreserved. rewrite orb_true_iff. intros [H|H].
  - bools H. lia.
  - apply existsb_exists in H as (x & Hin & Hx). apply N.eqb_eq in Hx. subst x.
    vm_compute in Hin.
    repeat (destruct Hin as [Hin|Hin]; [subst c; reflexivity|]). destruct Hin.
Qed.

Lemma isUnreserved_not_surrogate (c : N) :
  isUnreserved c = true -> isLeadSurrogate c = false /\ isTrailSurrogate c = false.
Proof.
  intros H. apply isUnreserved_range in H.
  destruct (isLeadSurrogate c) eqn:L; [bools L; lia|].
  destruct (isTrailSurrogate c) eqn:T; [bools T; lia|]. auto.
Qed.

Lemma option_map_None {A B : Type} (f : A -> B) (o : option A) :
  option_map f o = None <-> o = None.
Proof. destruct o; simpl; split; congruence. Qed.

Lemma encodeURIComponent_None_upto (n : nat) :
  forall s, List.length s <= n ->
  (encodeURIComponent s = None <-> isWellFormed s = false).
Proof.
  induction n as [|n IH]; intros s Hl.
  - destruct s; [simpl; split; discriminate | simpl in Hl; lia].
  - destruct s as [|c s]; [simpl; split; discriminate|].
    simpl in Hl. cbn [encodeURIComponent isWellFormed].
    destruct (isUnreserved c) eqn:U.
    + destruct (isUnreserved_not_surrogate _ U) as [-> ->].
      rewrite option_map_None. apply IH. lia.
    + destruct (isTrailSurrogate c); [tauto|].
      destruct (isLeadSurrogate c).
      * destruct s as [|d s]; [tauto|].
        destruct (isTrailSurrogate d); [|tauto].
        rewrite option_map_None. cbn [andb]. apply IH. simpl in Hl. lia.
      * rewrite option_map_None. apply IH. lia.
Qed.

Lemma encodeURIComponent_None_iff (s : jsstring) :
  encodeURIComponent s = None <-> isWellFormed s = false.
Proof. now apply (@encodeURIComponent_None_upto (List.length s)). Qed.

Lemma encode_wellFormed (s : jsstring) :
  isWellFormed s = true ->
  exists e, encodeURIComponent s = Some e /\ encode s = Return e.
Proof.
  intros H. unfold encode. destruct (encodeURIComponent s) as [e|] eqn:E.
  - now exists e.
  - apply encodeURIComponent_None_iff in E. congruence.
Qed.

Lemma encode_illFormed (s : jsstring) :
  isWellFormed s = false -> encode s = Throw URIError.
Proof.
  intros H. unfold encode. apply encodeURIComponent_None_iff in H. now rewrite H.
Qed.

(** *** buildQueryString *)

Section BuildQueryStringLemmas.

Variable num : Type.
Variable Number_toString : num -> jsstring.

Lemma buildPairs_wellFormed (entries : list (jsstring * value num)) :
  wellFormedParams Number_toString entries = true ->
  forall pairs,
  exists pieces,
    Forall2 (encodedPair Number_toString)
            (filter (fun kv => present (snd kv)) entries) pieces
    /\ buildPairs Number_toString entries pairs = Return (pairs ++ pieces).
Proof.
  unfold wellFormedParams.
  induction entries as [|[k v] rest IH]; intros H pairs;
    cbn [buildPairs filter forallb fst snd] in *.
  - exists []. rewrite app_nil_r. split; [constructor | reflexivity].
  - apply andb_true_iff in H as [Hkv Hrest].
    destruct (present v) eqn:P; cbn [negb orb] in Hkv.
    + apply andb_true_iff in Hkv as [Hk Hv].
      destruct (encode_wellFormed _ Hk) as (ek & Ek & ->).
      destruct (encode_wellFormed _ Hv) as (ev & Ev & ->).
      cbn [bind].
      destruct (IH Hrest (pairs ++ [ek ++ lit "=" ++ ev])) as (pieces & HF & ->).
      exists ((ek ++ lit "=" ++ ev) :: pieces). split.
      * constructor; [|exact HF]. exists ek, ev. auto.
      * now rewrite <- app_assoc.
    + destruct (IH Hrest pairs) as (pieces & HF & ->). now exists pieces.
Qed.

Lemma buildPairs_illFormed (entries : list (jsstring * value num)) :
  wellFormedParams Number_toString entries = false ->
  forall pairs, buildPairs Number_toString entries pairs = Throw URIError.
Proof.
  unfold wellFormedParams.
  induction entries as [|[k v] rest IH]; intros H pairs;
    cbn [buildPairs forallb fst snd] in *; [discriminate|].
  destruct (present v) eqn:P; cbn [negb orb andb] in H.
  - destruct (isWellFormed k) eqn:Hk; cbn [andb] in H.
    + destruct (encode_wellFormed _ Hk) as (ek & _ & ->). cbn [bind].
      destruct (isWellFormed (stringValue Number_toString v)) eqn:Hv; cbn [andb] in H.
      * destruct (encode_wellFormed _ Hv) as (ev & _ & ->). cbn [bind]. now apply IH.
      * now rewrite (encode_illFormed _ Hv).
    + now rewrite (encode_illFormed _ Hk).
  - now apply IH.
Qed.

End BuildQueryStringLemmas.

(** C7, as stated, fails: the function is not total.  A string value that
    holds a surrogate code unit outside a pair makes [encodeURIComponent],
    and with it [buildQueryString], throw a URIError. *)
Lemma buildQueryString_throws :
  buildQueryString Z_toString [(lit "msg", VString [55357%N])] = Throw URIError
  /\ ~ (forall params : list (jsstring * value Z),
          exists q, buildQueryString Z_toString params = Return q).
Proof.
  split; [reflexivity|].
  intros H. destruct (H [(lit "msg", VString [55357%N])]) as [q Hq].
  discriminate Hq.
Qed.

Lemma hexDigit_unreserved (n : N) : (n < 16)%N -> isUnreserved (hexDigit n) = true.
Proof.
  intros H. unfold isUnreserved, isAlnum, isAlpha, isDigit, between, hexDigit.
  apply orb_true_iff; left.
  destruct (N.ltb_spec n 10).
  - apply orb_true_iff; right.
    apply andb_true_iff; split; apply N.leb_le; lia.
  - apply orb_true_iff; left. apply orb_true_iff; left.
    apply andb_true_iff; split; apply N.leb_le; lia.
Qed.

Lemma escapeOctet_escaped (o : N) : (o < 256)%N -> forallb isEscaped (escapeOctet o) = true.
Proof.
  intros H. unfold escapeOctet. cbn [forallb].
  assert (H1 : (o / 16 < 16)%N) by (apply N.Div0.div_lt_upper_bound; lia).
  assert (H2 : (o mod 16 < 16)%N) by (apply N.mod_upper_bound; lia).
  unfold isEscaped at 2 3.
  rewrite (hexDigit_unreserved H1), (hexDigit_unreserved H2). reflexivity.
Qed.

Lemma utf8_octets (cp : N) : (cp < 1114112)%N -> Forall (fun o => (o < 256)%N) (utf8 cp).
Proof.
  intros H. unfold utf8.
  assert (M : forall a, (128 + a mod 64 < 256)%N).
  { intros a. assert (a mod 64 < 64)%N by (apply N.mod_upper_bound; lia). lia. }
  destruct (N.ltb_spec cp 128); [repeat constructor; lia|].
  destruct (N.ltb_spec cp 2048).
  { assert (cp / 64 < 32)%N by (apply N.Div0.div_lt_upper_bound; lia).
    repeat constructor; [lia | apply M]. }
  destruct (N.ltb_spec cp 65536).
  { assert (cp / 4096 < 16)%N by (apply N.Div0.div_lt_upper_bound; lia).
    repeat constructor; [lia | apply M | apply M]. }
  assert (cp / 262144 < 5)%N by (apply N.Div0.div_lt_upper_bound; lia).
  repeat constructor; [lia | apply M | apply M | apply M].
Qed.

Lemma escapeCodePoint_escaped (cp : N) :
  (cp < 1114112)%N -> forallb isEscaped (escapeCodePoint cp) = true.
Proof.
  intros H. unfold escapeCodePoint.
  pose proof (utf8_octets H) as F. induction F as [|o l Ho _ IH]; [reflexivity|].
  cbn [flat_map]. rewrite forallb_app, IH, (escapeOctet_escaped Ho). reflexivity.
Qed.

Lemma encodeURIComponent_escaped_upto (n : nat) :
  forall s e, List.length s <= n ->
  forallb isCodeUnit s = true ->
  encodeURIComponent s = Some e ->
  forallb isEscaped e = true.
Proof.
  induction n as [|n IH]; intros s e Hl Hs He.
  - destruct s; [|simpl in Hl; lia]. injection He as <-. reflexivity.
  - destruct s as [|c s]; [injection He as <-; reflexivity|].
    cbn [forallb] in Hs. apply andb_true_iff in Hs as [Hc Hs].
    unfold isCodeUnit in Hc. apply N.ltb_lt in Hc.
    simpl in Hl. cbn [encodeURIComponent] in He.
    destruct (isUnreserved c) eqn:U.
    + destruct (encodeURIComponent s) as [e'|] eqn:E; [|discriminate].
      injection He as <-. cbn [forallb]. unfold isEscaped at 1. rewrite U.
      apply (IH s e'); [lia | assumption | assumption].
    + destruct (isTrailSurrogate c); [discriminate|].
      destruct (isLeadSurrogate c) eqn:L.
      * destruct s as [|d s]; [discriminate|].
        destruct (isTrailSurrogate d) eqn:T; [|discriminate].
        destruct (encodeURIComponent s) as [e'|] eqn:E; [|discriminate].
        injection He as <-. cbn [forallb] in Hs. apply andb_true_iff in Hs as [_ Hs].
        rewrite forallb_app, escapeCodePoint_escaped.
        -- apply (IH s e'); [simpl in Hl; lia | assumption | assumption].
        -- unfold pairToCodePoint. bools L. bools T. lia.
      * destruct (encodeURIComponent s) as [e'|] eqn:E; [|discriminate].
        injection He as <-. rewrite forallb_app, escapeCodePoint_escaped by lia.
        apply (IH s e'); [lia | assumption | assumption].
Qed.

Lemma encodeURIComponent_unreserved (s : jsstring) :
  forallb isUnreserved s = true -> encodeURIComponent s = Some s.
Proof.
  induction s as [|c s IH]; [reflexivity|]. cbn [forallb encodeURIComponent].
  intros H. apply andb_true_iff in H as [-> H]. now rewrite (IH H).
Qed.

(** C7, amended.  [buildQueryString] returns when every entry it encodes
    has a well-formed key and string value, and throws a URIError when one
    does not.  When it returns, the result is the pieces joined by "&", one
    piece for each entry whose value is neither [undefined] nor [null], in
    order; a piece is the encoded key, "=", and the encoded string value.
    The string value of [true] is "1", of [false] is "0", of a string is
    itself, of a number is [String] of it.  Key and value are encoded each
    on its own by [encodeURIComponent], whose output consists of unreserved
    code units and percent escapes only, leaves unreserved text unchanged,
    and writes a space as "%20". *)
Theorem buildQueryString_encoding (num : Type) (Number_toString : num -> jsstring)
    (params : list (jsstring * value num)) :
  (wellFormedParams Number_toString params = true ->
   exists pieces,
     Forall2 (encodedPair Number_toString)
             (filter (fun kv => present (snd kv)) params) pieces
     /\ buildQueryString Number_toString params = Return (join (lit "&") pieces))
  /\ (wellFormedParams Number_toString params = false ->
      buildQueryString Number_toString params = Throw URIError)
  /\ present (@VUndefined num) = false
  /\ present (@VNull num) = false
  /\ stringValue Number_toString (VBoolean true) = lit "1"
  /\ stringValue Number_toString (VBoolean false) = lit "0"
  /\ (forall s, stringValue Number_toString (VString s) = s)
  /\ (forall n, stringValue Number_toString (VNumber n) = Number_toString n)
  /\ (forall s e, forallb isCodeUnit s = true -> encodeURIComponent s = Some e ->
                  forallb isEscaped e = true)
  /\ (forall s, forallb isUnreserved s = true -> encodeURIComponent s = Some s)
  /\ encodeURIComponent (lit " ") = Some (lit "%20")
  /\ encodeURIComponent (lit "Test & encode = special")
     = Some (lit "Test%20%26%20encode%20%3D%20special").
Proof.
  split; [|split].
  - intros H. destruct (buildPairs_wellFormed _ _ H []) as (pieces & HF & E).
    exists pieces. split; [exact HF|].
    unfold buildQueryString. rewrite E. reflexivity.
  - intros H. unfold buildQueryString.
    now rewrite (buildPairs_illFormed _ _ H).
  - repeat split; try reflexivity.
    + intros s e Hs He.
      now apply (@encodeURIComponent_escaped_upto (List.length s) s e).
    + apply encodeURIComponent_unreserved.
Qed.

Lemma buildQueryString_encoding_witness :
  exists pieces,
    List.length pieces = 3
    /\ buildQueryString Z_toString
         [(lit "username", VString (lit "test")); (lit "customid", VUndefined);
          (lit "other", VNull); (lit "price", VBoolean true);
          (lit "msg", VString (lit "Hello World"))]
       = Return (join (lit "&") pieces).
Proof.
  destruct (proj1 (buildQueryString_encoding Z_toString
              [(lit "username", VString (lit "test")); (lit "customid", VUndefined);
               (lit "other", VNull); (lit "price", VBoolean true);
               (lit "msg", VString (lit "Hello World"))]) eq_refl)
    as (pieces & HF & E).
  exists pieces. split; [|exact E].
  apply Forall2_length in HF. simpl in HF. now rewrite <- HF.
Defined.

(* ================================================================= *)
(** ** Further properties of the decoders *)

(** *** More on trim *)

Lemma dropWhile_app_all (p : N -> bool) (a x : jsstring) :
  forallb p a = true -> dropWhile p (a ++ x) = dropWhile p x.
Proof.
  induction a as [|c a IH]; simpl; [reflexivity|].
  intros H. apply andb_true_iff in H as [-> H]. now apply IH.
Qed.

Lemma dropWhile_nil_all (p : N -> bool) (x : jsstring) :
  dropWhile p x = [] <-> forallb p x = true.
Proof.
  induction x as [|c x IH]; simpl; [tauto|].
  destruct (p c); simpl; [exact IH | split; discriminate].
Qed.

Lemma forallb_rev (p : N -> bool) (x : jsstring) : forallb p (rev x) = forallb p x.
Proof.
  induction x as [|c x IH]; simpl; [reflexivity|].
  rewrite forallb_app, IH. simpl. rewrite andb_true_r. apply andb_comm.
Qed.

Lemma trimStart_app (s b : jsstring) :
  trimStart (s ++ b)
  = match trimStart s with [] => trimStart b | c :: r => (c :: r) ++ b end.
Proof.
  unfold trimStart. induction s as [|c s IH]; simpl.
  - now destruct (dropWhile isWhiteSpace b).
  - destruct (isWhiteSpace c); [exact IH | reflexivity].
Qed.

Lemma trimEnd_app_ws (x b : jsstring) :
  forallb isWhiteSpace b = true -> trimEnd (x ++ b) = trimEnd x.
Proof.
  intros H. unfold trimEnd. rewrite rev_app_distr, dropWhile_app_all; [reflexivity|].
  now rewrite forallb_rev.
Qed.

(** White space around a text does not change what [trim] gives. *)
Lemma trim_padding (a s b : jsstring) :
  forallb isWhiteSpace a = true -> forallb isWhiteSpace b = true ->
  trim (a ++ s ++ b) = trim s.
Proof.
  intros Ha Hb. unfold trim.
  replace (trimStart (a ++ s ++ b)) with (trimStart (s ++ b))
    by (unfold trimStart; now rewrite (@dropWhile_app_all _ a (s ++ b) Ha)).
  rewrite trimStart_app. destruct (trimStart s) as [|c r] eqn:E.
  - apply dropWhile_nil_all in Hb. unfold trimStart. rewrite Hb. reflexivity.
  - now apply trimEnd_app_ws.
Qed.

Lemma trim_last (s x : jsstring) (c : N) :
  trim s = x ++ [c] -> isWhiteSpace c = false.
Proof.
  unfold trim, trimEnd. intros H.
  apply (f_equal (@rev N)) in H. rewrite rev_involutive, rev_app_distr in H.
  simpl in H. now apply (dropWhile_head _ _ H).
Qed.

Lemma trim_nil_all (s : jsstring) : trim s = [] -> forallb isWhiteSpace s = true.
Proof.
  unfold trim, trimEnd. intros H.
  apply (f_equal (@rev N)) in H. rewrite rev_involutive in H. simpl in H.
  apply dropWhile_nil_all in H. rewrite forallb_rev in H.
  unfold trimStart in H. destruct (dropWhile isWhiteSpace s) as [|c r] eqn:E.
  - now apply dropWhile_nil_all.
  - apply dropWhile_head in E. simpl in H. rewrite E in H. discriminate H.
Qed.

(** *** parseResponse: the payload *)

Lemma parseResponse_returns (response payload : jsstring) :
  parseResponse response = Return payload ->
  trim payload = payload
  /\ (payload = [] <-> trim response = lit "OK").
Proof.
  unfold parseResponse. set (t := trim response).
  destruct (startsWith t (lit "ERR ")) eqn:Herr.
  { destruct (parseInt (substring t 4)); discriminate. }
  destruct (startsWith t (lit "OK ")) eqn:Hok.
  - pose proof (startsWith_split _ _ Hok) as Ht. simpl List.length in Ht.
    unfold substring. remember (skipn 3 t) as r eqn:Hr. clear Hr.
    intros E. injection E as <-. split; [apply trim_idem|].
    split.
    + intros Hnil. exfalso. apply trim_nil_all in Hnil.
      destruct (rev r) as [|c r'] eqn:Er.
      * apply (f_equal (@rev N)) in Er. rewrite rev_involutive in Er. simpl in Er.
        rewrite Er in Ht. assert (Hl : isWhiteSpace 32 = false).
        { apply (@trim_last response (lit "OK")). fold t. rewrite Ht. reflexivity. }
        discriminate Hl.
      * apply (f_equal (@rev N)) in Er. rewrite rev_involutive in Er. simpl in Er.
        assert (Hc : isWhiteSpace c = false).
        { apply (@trim_last response (lit "OK " ++ rev r')). fold t.
          rewrite Ht, Er. now rewrite app_assoc. }
        rewrite Er, forallb_app in Hnil. simpl in Hnil. rewrite Hc in Hnil.
        rewrite andb_false_r in Hnil. discriminate Hnil.
    + intros E. rewrite E in Hok. discriminate Hok.
  - destruct (str_eqb t (lit "OK")) eqn:Heq; [|discriminate].
    intros E. injection E as <-. apply str_eqb_eq in Heq. split; [reflexivity|tauto].
Qed.

(** X1.  A payload that [parseResponse] returns is trimmed, and it is empty
    only for the bare OK: after OK and a space something other than white
    space always follows. *)
Theorem parseResponse_payload (response payload : jsstring) :
  parseResponse response = Return payload ->
  trim payload = payload
  /\ (payload = [] <-> trim response = lit "OK").
Proof. apply parseResponse_returns. Qed.

Lemma parseResponse_payload_witness :
  trim (lit "12345") = lit "12345".
Proof.
  exact (proj1 (@parseResponse_payload (lit " OK   12345  ") (lit "12345") eq_refl)).
Defined.

(** X2.  White space (of any of the kinds [trim] strips) before and after a
    response does not change what [parseResponse] does with it. *)
Theorem parseResponse_padding (a s b : jsstring) :
  forallb isWhiteSpace a = true -> forallb isWhiteSpace b = true ->
  parseResponse (a ++ s ++ b) = parseResponse s.
Proof.
  intros Ha Hb. unfold parseResponse. now rewrite trim_padding.
Qed.

Lemma parseResponse_padding_witness :
  parseResponse ([13; 10] ++ lit "OK 7" ++ [13; 10; 65279])%N = parseResponse (lit "OK 7").
Proof.
  exact (@parseResponse_padding [13; 10]%N (lit "OK 7") [13; 10; 65279]%N
           eq_refl eq_refl).
Defined.

(** *** What the decoders throw *)

Lemma parseResponse_throws (response : jsstring) (e : exn) :
  parseResponse response = Throw e ->
  e <> URIError
  /\ (forall b, e = OfBudgetSMSError b ->
        startsWith (trim response) (lit "ERR ") = true
        /\ parseInt (substring (trim response) 4) = IInt (code b)).
Proof.
  unfold parseResponse. set (t := trim response).
  destruct (startsWith t (lit "ERR ")) eqn:Herr.
  - destruct (parseInt (substring t 4)) as [|n]; intros E; injection E as <-.
    + split; [discriminate|]. intros b Hb. discriminate Hb.
    + split; [discriminate|]. intros b Hb. injection Hb as <-. auto.
  - destruct (startsWith t (lit "OK ")); [discriminate|].
    destruct (str_eqb t (lit "OK")); [discriminate|].
    intros E. injection E as <-. split; [discriminate|]. intros b Hb. discriminate Hb.
Qed.

(** X3.  An exception of [parseResponse] comes out of every decoder
    unchanged; the pricing decoder passes it on when the text has the ERR
    prefix.  In the other direction, when one of the four text decoders
    throws a BudgetSMSError, the trimmed response starts with ERR and a
    space and the code is the integer [parseInt] reads after it. *)
Theorem decoders_errors (json : Type) (JSON_parse : jsstring -> json + jsstring)
    (Array_isArray : json -> bool)
    (response smsId : jsstring) (includePrice includeMccMnc includeCredit : option bool) :
  (forall e, parseResponse response = Throw e ->
     parseSendSMSResponse response includePrice includeMccMnc includeCredit = Throw e
     /\ parseCheckCreditResponse response = Throw e
     /\ parseOperatorResponse response = Throw e
     /\ parseSMSStatusResponse response smsId = Throw e
     /\ (startsWith (trim response) (lit "ERR ") = true ->
         parsePricingResponse JSON_parse Array_isArray response = Throw e))
  /\ (forall b,
        parseSendSMSResponse response includePrice includeMccMnc includeCredit
          = Throw (OfBudgetSMSError b)
        \/ parseCheckCreditResponse response = Throw (OfBudgetSMSError b)
        \/ parseOperatorResponse response = Throw (OfBudgetSMSError b)
        \/ parseSMSStatusResponse response smsId = Throw (OfBudgetSMSError b) ->
        startsWith (trim response) (lit "ERR ") = true
        /\ parseInt (substring (trim response) 4) = IInt (code b)).
Proof.
  split.
  - intros e He.
    unfold parseSendSMSResponse, parseCheckCreditResponse, parseOperatorResponse,
      parseSMSStatusResponse, parsePricingResponse.
    rewrite He. cbn [bind]. repeat split. now intros ->.
  - intros b H.
    destruct (parseResponse response) as [payload|e] eqn:P.
    + exfalso.
      unfold parseSendSMSResponse, parseCheckCreditResponse, parseOperatorResponse,
        parseSMSStatusResponse in H.
      rewrite P in H. cbn [bind] in H.
      destruct H as [H|[H|[H|H]]].
      * destruct (Nat.eqb (List.length (split_ws payload)) 0); [discriminate H|].
        destruct (truthy includePrice && _)%bool, (truthy includeMccMnc && _)%bool;
          cbv beta iota in H;
          destruct (truthy includeCredit && _)%bool; discriminate H.
      * destruct (isNaN (parseFloat payload)); discriminate H.
      * destruct (Nat.ltb _ 3); discriminate H.
      * destruct (parseInt payload); discriminate H.
    + assert (e = OfBudgetSMSError b).
      { unfold parseSendSMSResponse, parseCheckCreditResponse, parseOperatorResponse,
          parseSMSStatusResponse in H.
        rewrite P in H. cbn [bind] in H.
        destruct H as [H|[H|[H|H]]]; now injection H. }
      subst e. now apply (parseResponse_throws _ P).
Qed.

Lemma decoders_errors_witness :
  parseCheckCreditResponse (lit "ERR 1002")
  = Throw (OfBudgetSMSError
             (mkBudgetSMSError 1002 (lit "Identification failed. Wrong credentials"))).
Proof.
  exact (proj1 (proj2 (proj1 (@decoders_errors unit (fun _ => inl tt) (fun _ => true)
                                (lit "ERR 1002") [] None None None) _ eq_refl))).
Defined.

(** *** parseCheckCreditResponse *)

(** X4.  A credit that [parseCheckCreditResponse] returns is never NaN: it
    is [parseFloat] of a payload that begins, after an optional sign, with a
    digit, a dot and a digit, or Infinity.  On any other successful envelope
    the call throws "Invalid credit response: " followed by the payload; the
    bare OK is such a case. *)
Theorem parseCheckCreditResponse_credit (response : jsstring) :
  (forall r, parseCheckCreditResponse response = Return r ->
     cc_success r = true
     /\ cc_credit r <> NaN
     /\ exists payload, parseResponse response = Return payload
                        /\ startsDecimal payload = true
                        /\ cc_credit r = parseFloat payload)
  /\ (forall payload, parseResponse response = Return payload ->
        startsDecimal payload = false ->
        parseCheckCreditResponse response
        = Throw (Error (lit "Invalid credit response: " ++ payload)))
  /\ (trim response = lit "OK" ->
      parseCheckCreditResponse response = Throw (Error (lit "Invalid credit response: "))).
Proof.
  assert (Hthrow : forall payload, parseResponse response = Return payload ->
            startsDecimal payload = false ->
            parseCheckCreditResponse response
            = Throw (Error (lit "Invalid credit response: " ++ payload))).
  { intros payload P S. unfold parseCheckCreditResponse. rewrite P. cbn [bind].
    apply parseFloat_NaN_iff in S. now rewrite S. }
  split; [|split; [exact Hthrow|]].
  - intros r. unfold parseCheckCreditResponse.
    destruct (parseResponse response) as [payload|e] eqn:P; [|discriminate].
    cbn [bind]. destruct (parseFloat payload) as [| neg | q] eqn:F;
      cbn [isNaN]; [discriminate| |]; intros E; injection E as <-;
      (split; [reflexivity|]; split; [discriminate|]);
      exists payload; (split; [reflexivity|]); (split; [|now rewrite F]);
      destruct (startsDecimal payload) eqn:S; try reflexivity;
      apply parseFloat_NaN_iff in S; congruence.
  - intros E. rewrite <- (app_nil_r (lit "Invalid credit response: ")).
    apply Hthrow; [|reflexivity].
    unfold parseResponse. rewrite E. reflexivity.
Qed.

Lemma parseCheckCreditResponse_credit_witness :
  parseCheckCreditResponse (lit "OK") = Throw (Error (lit "Invalid credit response: ")).
Proof.
  exact (proj2 (proj2 (parseCheckCreditResponse_credit (lit "OK"))) eq_refl).
Defined.

(** *** More on split *)

Lemma avoids_rev (p : N -> bool) (t : jsstring) : avoids p (rev t) = avoids p t.
Proof. apply forallb_rev. Qed.

Lemma splitSpaces_avoids (s : jsstring) :
  forall inRun cur, avoids isWhiteSpace cur = true ->
  Forall (fun t => avoids isWhiteSpace t = true) (splitSpaces inRun cur s).
Proof.
  induction s as [|c s IH]; intros inRun cur Hcur; simpl.
  - constructor; [now rewrite avoids_rev | constructor].
  - destruct (isWhiteSpace c) eqn:W.
    + destruct inRun; [now apply IH|].
      constructor; [now rewrite avoids_rev | now apply IH].
    + apply IH. unfold avoids. simpl. rewrite W. exact Hcur.
Qed.

Lemma splitSpaces_head (s : jsstring) :
  forall cur, exists x rest, splitSpaces false cur s = (rev cur ++ x) :: rest.
Proof.
  induction s as [|c s IH]; intros cur; simpl.
  - exists [], []. now rewrite app_nil_r.
  - destruct (isWhiteSpace c).
    + exists [], (splitSpaces true [] s). now rewrite app_nil_r.
    + destruct (IH (c :: cur)) as (x & rest & ->). simpl.
      exists (c :: x), rest. now rewrite <- app_assoc.
Qed.

Lemma split_ws_head_nil (p id : jsstring) (rest : list jsstring) :
  trimStart p = p -> split_ws p = id :: rest -> (id = [] <-> p = []).
Proof.
  intros Ht Hs. split.
  - intros ->. destruct p as [|c p]; [reflexivity|]. exfalso.
    assert (W : isWhiteSpace c = false) by (apply (dropWhile_head _ _ Ht)).
    unfold split_ws in Hs. simpl in Hs. rewrite W in Hs.
    destruct (splitSpaces_head p [c]) as (x & r & E). rewrite E in Hs.
    discriminate Hs.
  - intros ->. now injection Hs as <- _.
Qed.

Lemma splitOn_nonempty (sep : N) (s : jsstring) :
  forall cur, splitOn sep cur s <> [].
Proof.
  induction s as [|c s IH]; intros cur; simpl; [discriminate|].
  destruct (N.eqb c sep); [discriminate | apply IH].
Qed.

Lemma splitOn_join (sep : N) (s : jsstring) :
  forall cur, join [sep] (splitOn sep cur s) = rev cur ++ s.
Proof.
  induction s as [|c s IH]; intros cur; simpl.
  - now rewrite app_nil_r.
  - destruct (N.eqb_spec c sep) as [->|Hc].
    + specialize (IH []).
      destruct (splitOn sep [] s) as [|y l] eqn:E;
        [now destruct (splitOn_nonempty sep s [])|].
      change (join [sep] (rev cur :: y :: l))
        with (rev cur ++ [sep] ++ join [sep] (y :: l)).
      now rewrite IH.
    + rewrite IH. simpl. now rewrite <- app_assoc.
Qed.

Lemma splitOn_avoids (sep : N) (s : jsstring) :
  forall cur, avoids (N.eqb sep) cur = true ->
  Forall (fun t => avoids (N.eqb sep) t = true) (splitOn sep cur s).
Proof.
  induction s as [|c s IH]; intros cur Hcur; simpl.
  - constructor; [now rewrite avoids_rev | constructor].
  - destruct (N.eqb_spec c sep) as [->|Hc].
    + constructor; [now rewrite avoids_rev | now apply IH].
    + apply IH. unfold avoids. simpl.
      destruct (N.eqb_spec sep c) as [E|_]; [congruence | exact Hcur].
Qed.

(** Splitting on a code unit and joining with it gives the text back. *)
Lemma split_join (s : jsstring) (sep : N) : join [sep] (split s sep) = s.
Proof. apply (splitOn_join sep s []). Qed.

(** *** parseSendSMSResponse: the result *)

Lemma parseSendSMSResponse_tokens (response payload : jsstring)
    (includePrice includeMccMnc includeCredit : option bool) :
  parseResponse response = Return payload ->
  exists id rest,
    split_ws payload = id :: rest
    /\ parseSendSMSResponse response includePrice includeMccMnc includeCredit
       = Return (sendResult id rest (truthy includePrice)
                   (truthy includeMccMnc) (truthy includeCredit)).
Proof.
  intros H. unfold parseSendSMSResponse. rewrite H. cbn [bind].
  destruct (split_ws payload) as [|id rest] eqn:E;
    [now destruct (split_ws_nonempty payload)|].
  exists id, rest. split; [reflexivity|].
  destruct (truthy includePrice), (truthy includeMccMnc), (truthy includeCredit);
    destruct rest as [|a [|b [|c [|d more]]]]; reflexivity.
Qed.

Lemma sendResult_fields (id : jsstring) (rest : list jsstring) (p m c : bool) :
  let r := sendResult id rest p m c in
  success r = true
  /\ smsId r = id
  /\ (price r = None <-> parts r = None)
  /\ (price r <> None -> p = true)
  /\ (mccMnc r <> None -> m = true)
  /\ (credit r <> None -> c = true)
  /\ (forall t, mccMnc r = Some t -> In t rest).
Proof.
  destruct p, m, c; destruct rest as [|x [|y [|z [|w more]]]]; cbn;
    repeat split; try congruence; try tauto;
    intros t H; injection H as <-; auto.
Qed.

Lemma truthy_true (b : option bool) : truthy b = true -> b = Some true.
Proof. destruct b as [[|]|]; simpl; congruence. Qed.

(** X5.  In a result of [parseSendSMSResponse] the message ID is empty
    exactly when the response was the bare OK (up to surrounding white
    space); neither the message ID nor the MCC/MNC ever contains a
    white-space code unit. *)
Theorem parseSendSMSResponse_smsId (response : jsstring)
    (includePrice includeMccMnc includeCredit : option bool) (r : SendSMSResponse) :
  parseSendSMSResponse response includePrice includeMccMnc includeCredit = Return r ->
  (smsId r = [] <-> trim response = lit "OK")
  /\ avoids isWhiteSpace (smsId r) = true
  /\ (forall t, mccMnc r = Some t -> avoids isWhiteSpace t = true).
Proof.
  intros H.
  destruct (parseResponse response) as [payload|e] eqn:P;
    [|unfold parseSendSMSResponse in H; rewrite P in H; discriminate H].
  destruct (@parseSendSMSResponse_tokens response payload includePrice
              includeMccMnc includeCredit P) as (id & rest & Hs & R).
  rewrite R in H. injection H as <-.
  destruct (sendResult_fields id rest (truthy includePrice) (truthy includeMccMnc)
              (truthy includeCredit)) as (_ & Hid & _ & _ & _ & _ & Hm).
  destruct (@parseResponse_returns response payload P) as [Ht Hnil].
  pose proof (@splitSpaces_avoids payload false [] eq_refl) as HF.
  fold (split_ws payload) in HF. rewrite Hs in HF.
  rewrite Hid. split; [|split].
  - rewrite <- Hnil. apply (@split_ws_head_nil payload id rest); [|exact Hs].
    rewrite <- Ht. apply trimStart_trim.
  - now inversion HF.
  - intros t Et. apply Hm in Et. inversion HF as [|? ? _ HF']; subst.
    rewrite Forall_forall in HF'. now apply HF'.
Qed.

Lemma parseSendSMSResponse_smsId_witness :
  avoids isWhiteSpace (lit "12345678") = true.
Proof.
  exact (proj1 (proj2 (@parseSendSMSResponse_smsId (lit "OK 12345678  0.055 1")
                         (Some true) None None _ eq_refl))).
Defined.

(** X6.  On a successful envelope [parseSendSMSResponse] always returns.
    In what it returns, [success] is true, price and part count are present
    or absent together, and an optional field is present only when its flag
    was passed as true. *)
Theorem parseSendSMSResponse_optional (response : jsstring)
    (includePrice includeMccMnc includeCredit : option bool) :
  (forall payload, parseResponse response = Return payload ->
     exists r, parseSendSMSResponse response includePrice includeMccMnc includeCredit
               = Return r)
  /\ (forall r,
        parseSendSMSResponse response includePrice includeMccMnc includeCredit
          = Return r ->
        success r = true
        /\ (price r = None <-> parts r = None)
        /\ (price r <> None -> includePrice = Some true)
        /\ (mccMnc r <> None -> includeMccMnc = Some true)
        /\ (credit r <> None -> includeCredit = Some true)).
Proof.
  split.
  - intros payload P.
    destruct (@parseSendSMSResponse_tokens response payload includePrice
                includeMccMnc includeCredit P) as (id & rest & _ & R).
    eexists. exact R.
  - intros r H.
    destruct (parseResponse response) as [payload|e] eqn:P;
      [|unfold parseSendSMSResponse in H; rewrite P in H; discriminate H].
    destruct (@parseSendSMSResponse_tokens response payload includePrice
                includeMccMnc includeCredit P) as (id & rest & _ & R).
    rewrite R in H. injection H as <-.
    destruct (sendResult_fields id rest (truthy includePrice) (truthy includeMccMnc)
                (truthy includeCredit)) as (H1 & _ & H3 & H4 & H5 & H6 & _).
    repeat split; try tauto; intros N; apply truthy_true; auto.
Qed.

Lemma parseSendSMSResponse_optional_witness :
  exists r, parseSendSMSResponse (lit "OK 1 2 3 4 5 6") (Some false) None (Some true)
            = Return r.
Proof.
  exact (proj1 (parseSendSMSResponse_optional (lit "OK 1 2 3 4 5 6")
                  (Some false) None (Some true)) _ eq_refl).
Defined.

(** *** parseOperatorResponse: the result *)

(** X7.  In a result of [parseOperatorResponse] neither the MCC/MNC nor the
    operator name contains a colon, and the payload is these two, the text
    the cost was read from and any further parts, joined by colons; so an
    operator name that itself holds a colon is cut at it and the cost is
    read from what follows. *)
Theorem parseOperatorResponse_structure (response : jsstring) (r : OperatorResponse) :
  parseOperatorResponse response = Return r ->
  op_success r = true
  /\ avoids (N.eqb (ch ":")) (op_mccMnc r) = true
  /\ avoids (N.eqb (ch ":")) (operatorName r) = true
  /\ exists payload cost more,
       parseResponse response = Return payload
       /\ payload = join (lit ":") (op_mccMnc r :: operatorName r :: cost :: more)
       /\ avoids (N.eqb (ch ":")) cost = true
       /\ messageCost r = parseFloat cost.
Proof.
  unfold parseOperatorResponse.
  destruct (parseResponse response) as [payload|e] eqn:P; [|discriminate].
  cbn [bind].
  pose proof (split_join payload (ch ":")) as HJ.
  pose proof (@splitOn_avoids (ch ":") payload [] eq_refl) as HF.
  fold (split payload (ch ":")) in HF.
  destruct (split payload (ch ":")) as [|a [|b [|c more]]]; try discriminate.
  cbn [List.length Nat.ltb Nat.leb item nth]. intros E. injection E as <-.
  cbn [op_success op_mccMnc operatorName messageCost].
  apply Forall_cons_iff in HF as [Ha HF]. apply Forall_cons_iff in HF as [Hb HF].
  apply Forall_cons_iff in HF as [Hc _].
  repeat split; auto.
  exists payload, c, more. repeat split; auto.
Qed.

Lemma parseOperatorResponse_structure_witness :
  exists payload cost more,
    parseResponse (lit "OK 20416:A:B Telecom:0.04") = Return payload
    /\ payload = join (lit ":") (lit "20416" :: lit "A" :: cost :: more)
    /\ avoids (N.eqb (ch ":")) cost = true
    /\ NaN = parseFloat cost.
Proof.
  exact (proj2 (proj2 (proj2 (@parseOperatorResponse_structure
                                (lit "OK 20416:A:B Telecom:0.04")
                                (mkOperatorResponse true (lit "20416") (lit "A") NaN)
                                eq_refl)))).
Defined.

(** *** validatePhoneNumber *)

Lemma isAlnum_isUnreserved (c : N) : isAlnum c = true -> isUnreserved c = true.
Proof. unfold isUnreserved. now intros ->. Qed.

Lemma validatePhoneNumber_runs (s : jsstring) :
  (validatePhoneNumber s = true <-> classRun isDigit 8 16 s)
  /\ (validatePhoneNumber s = true -> validateSender s = true).
Proof.
  assert (H : validatePhoneNumber s = true <-> classRun isDigit 8 16 s)
    by (unfold validatePhoneNumber; apply test_Repeat; lia).
  split; [exact H|].
  intros V. apply H in V as [Hl Hd]. apply validateSender_runs. right.
  split; [lia | exact Hd].
Qed.

(** X8.  [validatePhoneNumber] accepts exactly the texts of 8 to 16 digits,
    and whatever it accepts [validateSender] accepts as well. *)
Theorem validatePhoneNumber_spec (s : jsstring) :
  (validatePhoneNumber s = true <-> classRun isDigit 8 16 s)
  /\ (validatePhoneNumber s = true -> validateSender s = true).
Proof. apply validatePhoneNumber_runs. Qed.

Lemma validatePhoneNumber_spec_witness : validateSender (lit "31612345678") = true.
Proof.
  exact (proj2 (validatePhoneNumber_spec (lit "31612345678")) eq_refl).
Defined.

(** X9.  A sender that [validateSender] accepts and a number that
    [validatePhoneNumber] accepts go into the query string as they are:
    [encodeURIComponent] leaves them unchanged, so that [buildQueryString]
    on an entry with such a value, under a key of unreserved code units,
    returns the key, "=" and the value itself. *)
Theorem validated_encoded_verbatim (s : jsstring) :
  validateSender s = true \/ validatePhoneNumber s = true ->
  encodeURIComponent s = Some s
  /\ (forall (num : Type) (Number_toString : num -> jsstring) (key : jsstring),
        forallb isUnreserved key = true ->
        buildQueryString Number_toString [(key, VString s)]
        = Return (key ++ lit "=" ++ s)).
Proof.
  intros H.
  assert (V : validateSender s = true)
    by (destruct H as [H|H]; [exact H | now apply validatePhoneNumber_runs]).
  assert (E : encodeURIComponent s = Some s).
  { apply encodeURIComponent_unreserved.
    apply validateSender_runs in V as [[_ Ha]|[_ Hd]].
    - rewrite forallb_forall in *. intros c Hc. apply isAlnum_isUnreserved. auto.
    - apply forallb_digit_alnum in Hd.
      rewrite forallb_forall in *. intros c Hc. apply isAlnum_isUnreserved. auto. }
  split; [exact E|].
  intros num Number_toString key Hk.
  unfold buildQueryString. cbn [buildPairs present stringValue]. unfold encode.
  rewrite (encodeURIComponent_unreserved _ Hk), E. reflexivity.
Qed.

Lemma validated_encoded_verbatim_witness :
  encodeURIComponent (lit "MyApp") = Some (lit "MyApp").
Proof.
  exact (proj1 (@validated_encoded_verbatim (lit "MyApp") (or_introl eq_refl))).
Defined.

(** *** BudgetSMSError *)

(** X10.  A BudgetSMSError keeps the code it was built with and never has
    an empty message: a non-empty custom message is used as it is, and an
    empty one counts as none, so that the table entry or the fallback is
    used. *)
Theorem new_BudgetSMSError_message (n : Z) (custom : option jsstring) :
  code (new_BudgetSMSError n custom) = n
  /\ message (new_BudgetSMSError n custom) <> []
  /\ (forall m, custom = Some m -> m <> [] -> message (new_BudgetSMSError n custom) = m)
  /\ (custom = Some [] -> new_BudgetSMSError n custom = new_BudgetSMSError n None).
Proof.
  split; [reflexivity|].
  assert (Hdef : message (new_BudgetSMSError n None) <> []).
  { unfold new_BudgetSMSError. cbn [message orElse].
    destruct (ERROR_MESSAGES_get n) as [[|c m]|]; discriminate. }
  split; [|split].
  - destruct custom as [[|c m]|]; [exact Hdef | discriminate | exact Hdef].
  - intros m -> Hm. destruct m; [congruence | reflexivity].
  - intros ->. reflexivity.
Qed.

Lemma new_BudgetSMSError_message_witness :
  message (new_BudgetSMSError 1001 (Some (lit "Top up first"))) = lit "Top up first".
Proof.
  refine (proj1 (proj2 (proj2 (new_BudgetSMSError_message 1001
                                 (Some (lit "Top up first"))))) _ eq_refl _).
  discriminate.
Defined.

(** X11.  No code is in two of the three classes, and a code that is in one
    of them has an entry in [ERROR_MESSAGES], which is the message of the
    error built from the code alone. *)
Theorem classification_exclusive (e : BudgetSMSError) :
  (isRetryable e && isAuthenticationError e = false)%bool
  /\ (isRetryable e && isInsufficientCredits e = false)%bool
  /\ (isAuthenticationError e && isInsufficientCredits e = false)%bool
  /\ ((isRetryable e || isAuthenticationError e || isInsufficientCredits e)%bool = true ->
      exists m, In (code e, m) ERROR_MESSAGES
                /\ message (new_BudgetSMSError (code e) None) = lit m).
Proof.
  assert (Hin : (isRetryable e || isAuthenticationError e
                 || isInsufficientCredits e)%bool = true ->
                In (code e) [4002; 4003; 4006; 1002; 1003; 1004; 1005; 1006; 1007;
                             1001]%Z).
  { unfold isRetryable, isAuthenticationError, isInsufficientCredits.
    rewrite !orb_true_iff, !existsb_exists. intros [[H|H]|H].
    - destruct H as (x & Hx & E). apply Z.eqb_eq in E. subst x.
      simpl in Hx. simpl. tauto.
    - destruct H as (x & Hx & E). apply Z.eqb_eq in E. subst x.
      simpl in Hx. simpl. tauto.
    - apply Z.eqb_eq in H. rewrite H. simpl. tauto. }
  split; [|split; [|split]].
  - destruct (isRetryable e) eqn:R; [|reflexivity].
    destruct (isAuthenticationError e) eqn:A; [|reflexivity]. exfalso.
    unfold isRetryable in R. unfold isAuthenticationError in A.
    apply existsb_exists in R as (x & Hx & E). apply Z.eqb_eq in E. subst x.
    apply existsb_exists in A as (y & Hy & E). apply Z.eqb_eq in E. subst y.
    simpl in Hx, Hy. unfold SYSTEM_ERROR_TEMPORARY, SYSTEM_ERROR_TEMPORARY_2,
      GATEWAY_NOT_REACHABLE, INVALID_CREDENTIALS, ACCOUNT_NOT_ACTIVE, IP_NOT_ALLOWED,
      NO_HANDLE_PROVIDED, NO_USERID_PROVIDED, NO_USERNAME_PROVIDED in *. lia.
  - destruct (isRetryable e) eqn:R; [|reflexivity].
    destruct (isInsufficientCredits e) eqn:A; [|reflexivity]. exfalso.
    unfold isRetryable in R. unfold isInsufficientCredits in A.
    apply existsb_exists in R as (x & Hx & E). apply Z.eqb_eq in E. subst x.
    apply Z.eqb_eq in A.
    simpl in Hx. unfold SYSTEM_ERROR_TEMPORARY, SYSTEM_ERROR_TEMPORARY_2,
      GATEWAY_NOT_REACHABLE, NOT_ENOUGH_CREDITS in *. lia.
  - destruct (isAuthenticationError e) eqn:R; [|reflexivity].
    destruct (isInsufficientCredits e) eqn:A; [|reflexivity]. exfalso.
    unfold isAuthenticationError in R. unfold isInsufficientCredits in A.
    apply existsb_exists in R as (x & Hx & E). apply Z.eqb_eq in E. subst x.
    apply Z.eqb_eq in A.
    simpl in Hx. unfold INVALID_CREDENTIALS, ACCOUNT_NOT_ACTIVE, IP_NOT_ALLOWED,
      NO_HANDLE_PROVIDED, NO_USERID_PROVIDED, NO_USERNAME_PROVIDED,
      NOT_ENOUGH_CREDITS in *. lia.
  - intros H. apply Hin in H.
    assert (K : forall n, In n [4002; 4003; 4006; 1002; 1003; 1004; 1005; 1006; 1007;
                                1001]%Z ->
                exists m, In (n, m) ERROR_MESSAGES).
    { intros n Hn. simpl in Hn.
      repeat (destruct Hn as [<-|Hn];
              [eexists; unfold ERROR_MESSAGES;
               repeat (first [left; reflexivity | right])|]).
      destruct Hn. }
    destruct (K _ H) as [m Hm]. exists m. split; [exact Hm|].
    now rewrite (new_BudgetSMSError_known Hm).
Qed.

Lemma classification_exclusive_witness :
  exists m, In (4003%Z, m) ERROR_MESSAGES
            /\ message (new_BudgetSMSError 4003 None) = lit m.
Proof.
  exact (proj2 (proj2 (proj2 (classification_exclusive
                                (mkBudgetSMSError 4003 [])))) eq_refl).
Defined.

(** *** buildQueryString: separators *)

Lemma isEscaped_not_separator (c : N) :
  isEscaped c = true -> c <> ch "&" /\ c <> ch "=".
Proof.
  intros H. split; intros ->; vm_compute in H; discriminate H.
Qed.

Lemma count_occ_escaped (e : jsstring) (x : N) :
  forallb isEscaped e = true -> x = ch "&" \/ x = ch "=" ->
  count_occ N.eq_dec e x = 0.
Proof.
  intros He Hx. apply count_occ_not_In. intros Hin.
  rewrite forallb_forall in He. apply He in Hin.
  apply isEscaped_not_separator in Hin. destruct Hx as [->| ->]; tauto.
Qed.

Lemma encodeURIComponent_escaped (s e : jsstring) :
  forallb isCodeUnit s = true -> encodeURIComponent s = Some e ->
  forallb isEscaped e = true.
Proof.
  intros Hs He. now apply (@encodeURIComponent_escaped_upto (List.length s) s e).
Qed.

Lemma join_pieces (pieces : list jsstring) :
  Forall pieceShape pieces ->
  count_occ N.eq_dec (join (lit "&") pieces) (ch "=") = List.length pieces
  /\ count_occ N.eq_dec (join (lit "&") pieces) (ch "&") = List.length pieces - 1
  /\ (pieces <> [] -> join (lit "&") pieces <> [])
  /\ forallb (fun c => isEscaped c || N.eqb c (ch "=") || N.eqb c (ch "&"))%bool
             (join (lit "&") pieces) = true.
Proof.
  assert (One : forall piece, pieceShape piece ->
            count_occ N.eq_dec piece (ch "=") = 1
            /\ count_occ N.eq_dec piece (ch "&") = 0
            /\ piece <> []
            /\ forallb (fun c => isEscaped c || N.eqb c (ch "=") || N.eqb c (ch "&"))%bool
                       piece = true).
  { intros piece (ek & ev & -> & Hk & Hv).
    rewrite !count_occ_app.
    rewrite !(@count_occ_escaped ek _ Hk), !(@count_occ_escaped ev _ Hv) by auto.
    repeat split; try reflexivity.
    - destruct ek; discriminate.
    - rewrite !forallb_app. cbn [forallb lit]. 
      assert (W : forall l, forallb isEscaped l = true ->
                forallb (fun c => isEscaped c || N.eqb c (ch "=") || N.eqb c (ch "&"))%bool
                        l = true).
      { intros l Hl. rewrite forallb_forall in *. intros c Hc.
        now rewrite (Hl c Hc). }
      rewrite (W _ Hk), (W _ Hv). reflexivity. }
  induction 1 as [|piece pieces Hp HF IH]; [repeat split; congruence|].
  destruct (One _ Hp) as (E1 & A1 & N1 & F1).
  destruct pieces as [|piece' pieces'].
  - cbn [join List.length]. repeat split; auto.
  - destruct IH as (E2 & A2 & _ & F2).
    change (join (lit "&") (piece :: piece' :: pieces'))
      with (piece ++ lit "&" ++ join (lit "&") (piece' :: pieces')).
    rewrite !count_occ_app, E1, A1, E2, A2, !forallb_app, F1, F2.
    change (count_occ N.eq_dec (lit "&") (ch "=")) with 0.
    change (count_occ N.eq_dec (lit "&") (ch "&")) with 1.
    cbn [List.length]. split; [lia|]. split; [lia|]. split; [|reflexivity].
    intros _. destruct piece; [congruence | discriminate].
Qed.

Section QueryStringShape.

Variable num : Type.
Variable Number_toString : num -> jsstring.

Lemma buildQueryString_returns (params : list (jsstring * value num)) (q : jsstring) :
  buildQueryString Number_toString params = Return q ->
  exists pieces,
    Forall2 (encodedPair Number_toString)
            (filter (fun kv => present (snd kv)) params) pieces
    /\ q = join (lit "&") pieces.
Proof.
  intros H. destruct (wellFormedParams Number_toString params) eqn:W.
  - destruct (buildPairs_wellFormed _ _ W []) as (pieces & HF & E).
    exists pieces. split; [exact HF|].
    unfold buildQueryString in H. rewrite E in H. cbn [bind app] in H. congruence.
  - unfold buildQueryString in H. rewrite (buildPairs_illFormed _ _ W) in H.
    discriminate H.
Qed.

Lemma encodedPairs_shape (entries : list (jsstring * value num)) (pieces : list jsstring) :
  codeUnitParams Number_toString entries = true ->
  Forall2 (encodedPair Number_toString)
          (filter (fun kv => present (snd kv)) entries) pieces ->
  Forall pieceShape pieces.
Proof.
  unfold codeUnitParams. revert pieces.
  induction entries as [|[k v] rest IH]; intros pieces Hcu HF;
    cbn [filter forallb fst snd] in *.
  - inversion HF. constructor.
  - apply andb_true_iff in Hcu as [Hkv Hrest].
    destruct (present v); cbn [negb orb] in Hkv.
    + inversion HF as [|? piece ? pieces' (ek & ev & Ek & Ev & ->) HF']; subst.
      apply andb_true_iff in Hkv as [Hk Hv]. cbn [fst snd] in *.
      constructor; [|now apply IH].
      exists ek, ev. split; [reflexivity|].
      split; [exact (@encodeURIComponent_escaped _ _ Hk Ek)
             | exact (@encodeURIComponent_escaped _ _ Hv Ev)].
    + now apply IH.
Qed.

(** X12.  When the keys and values are sequences of code units, the query
    string that [buildQueryString] returns has exactly one equals sign for
    each entry that is neither [undefined] nor [null], one ampersand fewer
    (none when there is no such entry), and otherwise only unreserved code
    units and percent signs: a key or a value cannot bring a separator of
    its own into the query. *)
Theorem buildQueryString_separators (params : list (jsstring * value num))
    (q : jsstring) :
  codeUnitParams Number_toString params = true ->
  buildQueryString Number_toString params = Return q ->
  let n := List.length (filter (fun kv => present (snd kv)) params) in
  count_occ N.eq_dec q (ch "=") = n
  /\ count_occ N.eq_dec q (ch "&") = n - 1
  /\ forallb (fun c => isEscaped c || N.eqb c (ch "=") || N.eqb c (ch "&"))%bool q = true.
Proof.
  intros Hcu H n.
  destruct (buildQueryString_returns _ H) as (pieces & HF & ->).
  pose proof (encodedPairs_shape _ Hcu HF) as HS.
  destruct (join_pieces HS) as (E & A & _ & F).
  unfold n. rewrite (Forall2_length HF). auto.
Qed.

(** X13.  [buildQueryString] returns the empty string exactly when every
    value is [undefined] or [null] (in particular for no parameters at
    all). *)
Theorem buildQueryString_empty (params : list (jsstring * value num)) :
  buildQueryString Number_toString params = Return []
  <-> forallb (fun kv => negb (present (snd kv))) params = true.
Proof.
  split.
  - intros H. destruct (buildQueryString_returns _ H) as (pieces & HF & E).
    destruct pieces as [|piece pieces].
    + inversion HF as [E0|]. symmetry in E0.
      clear -E0. induction params as [|[k v] rest IH]; [reflexivity|].
      cbn [filter forallb snd] in *. destruct (present v); [discriminate E0|].
      now apply IH.
    + exfalso. inversion HF as [|? ? ? ? (ek & ev & _ & _ & Ep) _]; subst.
      destruct pieces; cbn [join] in E; destruct ek; discriminate E.
  - intros H.
    assert (W : wellFormedParams Number_toString params = true).
    { unfold wellFormedParams. rewrite forallb_forall in *. intros kv Hkv.
      now rewrite (H kv Hkv). }
    destruct (buildPairs_wellFormed _ _ W []) as (pieces & HF & E).
    assert (F0 : filter (fun kv => present (snd kv)) params = []).
    { clear -H. induction params as [|[k v] rest IH]; [reflexivity|].
      cbn [filter forallb snd] in *. apply andb_true_iff in H as [Hv Hr].
      destruct (present v); [discriminate Hv | now apply IH]. }
    rewrite F0 in HF. inversion HF; subst.
    unfold buildQueryString. rewrite E. reflexivity.
Qed.

End QueryStringShape.

Lemma buildQueryString_separators_witness :
  count_occ N.eq_dec (lit "msg=a%26b%3Dc&price=1") (ch "=") = 2
  /\ count_occ N.eq_dec (lit "msg=a%26b%3Dc&price=1") (ch "&") = 1.
Proof.
  destruct (@buildQueryString_separators Z Z_toString
              [(lit "msg", VString (lit "a&b=c")); (lit "x", VNull);
               (lit "price", VBoolean true)]
              (lit "msg=a%26b%3Dc&price=1") eq_refl eq_refl) as (H1 & H2 & _).
  split; [exact H1 | exact H2].
Defined.

Lemma buildQueryString_empty_witness :
  buildQueryString Z_toString [(lit "customid", VUndefined); (lit "other", VNull)]
  = Return [].
Proof.
  exact (proj2 (buildQueryString_empty Z_toString
                  [(lit "customid", VUndefined); (lit "other", VNull)]) eq_refl).
Defined.

(** *** Decimal text of an integer, read back *)

Lemma lit_uint_digits (d : Decimal.uint) :
  forallb isDigit (lit (NilEmpty.string_of_uint d)) = true.
Proof. induction d; simpl; auto. Qed.

Lemma digitsValue_uint_acc (d : Decimal.uint) :
  forall acc : positive,
    fold_left (fun a c => (a * 10 + Z.of_N (c - 48))%Z)
              (lit (NilEmpty.string_of_uint d)) (Zpos acc)
    = Zpos (Pos.of_uint_acc d acc).
Proof.
  induction d; intros acc; [reflexivity|..];
    cbn [NilEmpty.string_of_uint lit list_ascii_of_string List.map fold_left
         Pos.of_uint_acc];
    (etransitivity; [|apply IHd]); f_equal; vm_compute N_of_ascii; lia.
Qed.

Lemma digitsValue_uint (d : Decimal.uint) :
  digitsValue (lit (NilEmpty.string_of_uint d)) = Z.of_N (Pos.of_uint d).
Proof.
  unfold digitsValue. induction d; [reflexivity|..];
    cbn [NilEmpty.string_of_uint lit list_ascii_of_string List.map fold_left
         Pos.of_uint];
    try exact IHd; apply (digitsValue_uint_acc d).
Qed.

Lemma Z_toString_shape (n : Z) :
  exists sign d ds,
    Z_toString n = sign ++ d :: ds
    /\ (sign = [] \/ sign = lit "-")
    /\ forallb isDigit (d :: ds) = true
    /\ n = if str_eqb sign (lit "-") then (- digitsValue (d :: ds))%Z
           else digitsValue (d :: ds).
Proof.
  assert (P : forall p, exists d ds,
            lit (NilEmpty.string_of_uint (Pos.to_uint p)) = d :: ds
            /\ forallb isDigit (d :: ds) = true
            /\ digitsValue (d :: ds) = Zpos p).
  { intros p.
    pose proof (lit_uint_digits (Pos.to_uint p)) as Hd.
    pose proof (digitsValue_uint (Pos.to_uint p)) as Hv.
    rewrite DecimalPos.Unsigned.of_to in Hv.
    destruct (lit (NilEmpty.string_of_uint (Pos.to_uint p))) as [|d ds] eqn:E.
    - discriminate Hv.
    - exists d, ds. auto. }
  destruct n as [|p|p].
  - exists [], (ch "0"), []. repeat split; auto.
  - destruct (P p) as (d & ds & E & Hd & Hv).
    exists [], d, ds. split; [exact E|]. split; [auto|]. split; [exact Hd|].
    now rewrite Hv.
  - destruct (P p) as (d & ds & E & Hd & Hv).
    exists (lit "-"), d, ds. split.
    + unfold Z_toString. cbn [Z.to_int NilEmpty.string_of_int].
      change (lit (String "-" ?s)) with (ch "-" :: lit s).
      unfold lit at 1. cbn [list_ascii_of_string List.map]. fold (lit (NilEmpty.string_of_uint (Pos.to_uint p))).
      now rewrite E.
    + split; [auto|]. split; [exact Hd|]. now rewrite Hv.
Qed.

Lemma parseInt_Z_toString (n : Z) (rest : jsstring) :
  match rest with c :: _ => isDigit c = false | [] => True end ->
  parseInt (Z_toString n ++ rest) = IInt n.
Proof.
  intros Hrest.
  destruct (Z_toString_shape n) as (sign & d & ds & E & Hsign & Hd & Hn).
  apply parseInt_prefix. exists rest.
  assert (Hd0 : isDigit d = true)
    by (cbn [forallb] in Hd; now apply andb_true_iff in Hd).
  assert (Ht : trimStart (Z_toString n ++ rest) = Z_toString n ++ rest).
  { apply dropWhile_fixed. rewrite E.
    destruct Hsign as [-> | ->]; [|reflexivity].
    simpl. now apply isDigit_not_space. }
  rewrite Ht, E. exists sign, (d :: ds).
  split; [now rewrite <- app_assoc|].
  split; [tauto|]. split; [discriminate|]. auto.
Qed.

Lemma trim_fixed (s : jsstring) :
  match s with c :: _ => isWhiteSpace c = false | [] => True end ->
  match rev s with c :: _ => isWhiteSpace c = false | [] => True end ->
  trim s = s.
Proof.
  intros Hh Hl. unfold trim, trimStart, trimEnd.
  rewrite (dropWhile_fixed _ _ Hh), (dropWhile_fixed _ _ Hl). apply rev_involutive.
Qed.

Lemma trim_prefix_Z_toString (p : jsstring) (c : N) (n : Z) :
  isWhiteSpace c = false ->
  trim ((c :: p) ++ Z_toString n) = (c :: p) ++ Z_toString n.
Proof.
  intros Hc. apply trim_fixed; [exact Hc|].
  destruct (Z_toString_shape n) as (sign & d & ds & E & _ & Hd & _).
  rewrite E, !rev_app_distr.
  assert (Hr : forallb isDigit (rev (d :: ds)) = true) by now rewrite forallb_rev.
  destruct (rev (d :: ds)) as [|x r] eqn:Er.
  - apply (f_equal (@List.length N)) in Er. rewrite length_rev in Er. discriminate Er.
  - cbn [app]. cbn [forallb] in Hr. apply andb_true_iff in Hr as [Hx _].
    now apply isDigit_not_space.
Qed.

(** X14.  The decimal text of a safe integer is read back as that integer:
    for every safe integer [n], an ERR line with the decimal text of [n]
    throws the BudgetSMSError for code [n], an OK line with it gives the
    status [n], and the code of an error can be read back from its fallback
    message. *)
Theorem decimal_text_read_back (n : Z) :
  safeInteger n ->
  parseInt (Z_toString n) = IInt n
  /\ parseResponse (lit "ERR " ++ Z_toString n)
     = Throw (OfBudgetSMSError (new_BudgetSMSError n None))
  /\ (forall smsId,
        parseSMSStatusResponse (lit "OK " ++ Z_toString n) smsId
        = Return (mkSMSStatusResponse true smsId n))
  /\ ((forall m, ~ In (n, m) ERROR_MESSAGES) ->
      parseInt (substring (message (new_BudgetSMSError n None)) 21) = IInt n).
Proof.
  intros _.
  assert (H0 : parseInt (Z_toString n) = IInt n).
  { rewrite <- (app_nil_r (Z_toString n)). now apply parseInt_Z_toString. }
  split; [exact H0|]. split; [|split].
  - unfold parseResponse.
    assert (Hp : trim (lit "ERR " ++ Z_toString n) = lit "ERR " ++ Z_toString n)
      by exact (@trim_prefix_Z_toString (lit "RR ") (ch "E") n eq_refl).
    rewrite Hp.
    change (startsWith (lit "ERR " ++ Z_toString n) (lit "ERR ")) with true.
    cbv beta iota.
    change (substring (lit "ERR " ++ Z_toString n) 4) with (Z_toString n).
    now rewrite H0.
  - intros smsId. unfold parseSMSStatusResponse, parseResponse.
    assert (Hp : trim (lit "OK " ++ Z_toString n) = lit "OK " ++ Z_toString n)
      by exact (@trim_prefix_Z_toString (lit "K ") (ch "O") n eq_refl).
    rewrite Hp.
    change (startsWith (lit "OK " ++ Z_toString n) (lit "ERR ")) with false.
    change (startsWith (lit "OK " ++ Z_toString n) (lit "OK ")) with true.
    cbv beta iota.
    change (substring (lit "OK " ++ Z_toString n) 3) with (Z_toString n).
    assert (Ht : trim (Z_toString n) = Z_toString n).
    { destruct (Z_toString_shape n) as (sign & d & ds & E & Hsign & Hd & _).
      assert (Hd0 : isDigit d = true)
        by (cbn [forallb] in Hd; now apply andb_true_iff in Hd).
      apply trim_fixed.
      - rewrite E. destruct Hsign as [-> | ->]; [|reflexivity].
        simpl. now apply isDigit_not_space.
      - rewrite E, rev_app_distr.
        assert (Hr : forallb isDigit (rev (d :: ds)) = true) by now rewrite forallb_rev.
        destruct (rev (d :: ds)) as [|x r] eqn:Er.
        + apply (f_equal (@List.length N)) in Er. rewrite length_rev in Er.
          discriminate Er.
        + cbn [app]. cbn [forallb] in Hr. apply andb_true_iff in Hr as [Hx _].
          now apply isDigit_not_space. }
    rewrite Ht. cbn [bind]. now rewrite H0.
  - intros Hno. rewrite (new_BudgetSMSError_unknown Hno). cbn [message].
    change (substring (lit "BudgetSMS API error: " ++ Z_toString n) 21)
      with (Z_toString n).
    exact H0.
Qed.

Lemma decimal_text_read_back_witness :
  parseInt (substring (message (new_BudgetSMSError (-42) None)) 21) = IInt (-42).
Proof.
  assert (S : safeInteger (-42)) by (unfold safeInteger; lia).
  apply (proj2 (proj2 (proj2 (@decimal_text_read_back (-42) S)))).
  intros m Hin. vm_compute in Hin.
  repeat (destruct Hin as [Hin|Hin]; [discriminate Hin|]). exact Hin.
Defined.

(** *** parsePricingResponse *)

(** X15.  On a text with the ERR prefix [parsePricingResponse] throws what
    [parseResponse] throws and does not depend on [JSON.parse].  On any
    other text it returns the parsed value when that is an array, and
    otherwise throws a plain Error whose message starts with "Failed to
    parse pricing response: "; it throws a BudgetSMSError only for a text
    with the ERR prefix. *)
Theorem parsePricingResponse_cases (json : Type)
    (JSON_parse : jsstring -> json + jsstring) (Array_isArray : json -> bool)
    (response : jsstring) :
  let result := parsePricingResponse JSON_parse Array_isArray response in
  (startsWith (trim response) (lit "ERR ") = true ->
     (exists e, parseResponse response = Throw e /\ result = Throw e)
     /\ forall (JSON_parse' : jsstring -> json + jsstring) (Array_isArray' : json -> bool),
          parsePricingResponse JSON_parse' Array_isArray' response = result)
  /\ (startsWith (trim response) (lit "ERR ") = false ->
      match JSON_parse response with
      | inl pricing =>
          if Array_isArray pricing then result = Return pricing
          else result = Throw (Error (lit "Failed to parse pricing response: "
                                      ++ lit "Pricing response is not an array"))
      | inr m => result = Throw (Error (lit "Failed to parse pricing response: " ++ m))
      end)
  /\ (forall b, result = Throw (OfBudgetSMSError b) ->
        startsWith (trim response) (lit "ERR ") = true).
Proof.
  intros result.
  assert (Herr : startsWith (trim response) (lit "ERR ") = true ->
                 exists e, parseResponse response = Throw e
                           /\ forall (J : jsstring -> json + jsstring) (A : json -> bool),
                                parsePricingResponse J A response = Throw e).
  { intros H. unfold parsePricingResponse, parseResponse. rewrite H.
    destruct (parseInt (substring (trim response) 4)); eexists; split;
      try reflexivity; intros J A; reflexivity. }
  assert (Hok : startsWith (trim response) (lit "ERR ") = false ->
                result = match parsePricingBody JSON_parse Array_isArray response with
                         | Return pricing => Return pricing
                         | Throw error => parsePricingCatch json error
                         end).
  { intros H. unfold result, parsePricingResponse. now rewrite H. }
  split; [|split].
  - intros H. destruct (Herr H) as (e & He & Hall). split.
    + exists e. split; [exact He | apply Hall].
    + intros J A. unfold result. now rewrite !Hall.
  - intros H. rewrite (Hok H). unfold parsePricingBody.
    destruct (JSON_parse response) as [pricing|m]; [|reflexivity].
    destruct (Array_isArray pricing); reflexivity.
  - intros b Hb. destruct (startsWith (trim response) (lit "ERR ")) eqn:H;
      [reflexivity|]. exfalso.
    rewrite (Hok eq_refl) in Hb. unfold parsePricingBody in Hb.
    destruct (JSON_parse response) as [pricing|m]; [|discriminate Hb].
    destruct (Array_isArray pricing); discriminate Hb.
Qed.

Lemma parsePricingResponse_cases_witness :
  parsePricingResponse (fun _ : jsstring => @inr unit jsstring (lit "Unexpected token"))
    (fun _ => true) (lit "OK 1.5")
  = Throw (Error (lit "Failed to parse pricing response: Unexpected token")).
Proof.
  exact (proj1 (proj2 (parsePricingResponse_cases
                         (fun _ : jsstring => @inr unit jsstring (lit "Unexpected token"))
                         (fun _ => true) (lit "OK 1.5"))) eq_refl).
Defined.

(* ================================================================= *)
(** ** The client *)

Section ClientLemmas.

Variable fetch : jsstring -> Client.settled Client.Response.
Variable this : Client.BudgetSMS.

Lemma request_answer (endpoint : jsstring) (params : Client.APIRequestParams)
    (q : jsstring) :
  buildQueryString Client.noNumber_toString params = Return q ->
  Client.request fetch this endpoint params
  = answer this (fetch (Client.baseUrl this ++ endpoint ++ lit "?" ++ q)).
Proof.
  intros H. unfold Client.request. rewrite H. cbn [bind]. unfold answer.
  destruct (fetch _) as [response| |reason]; try reflexivity.
  destruct (Client.ok response); reflexivity.
Qed.

Lemma request_illFormed (endpoint : jsstring) (params : Client.APIRequestParams) :
  wellFormedParams Client.noNumber_toString params = false ->
  Client.request fetch this endpoint params = Throw URIError.
Proof.
  intros H. unfold Client.request, buildQueryString.
  now rewrite (buildPairs_illFormed _ _ H).
Qed.

Lemma buildPairs_app (a b : Client.APIRequestParams) :
  forall pairs,
    buildPairs Client.noNumber_toString (a ++ b) pairs
    = (pairs' <- buildPairs Client.noNumber_toString a pairs ;;
       buildPairs Client.noNumber_toString b pairs').
Proof.
  induction a as [|[k v] a IH]; intros pairs; cbn [app buildPairs bind]; [reflexivity|].
  destruct (present v); [|apply IH].
  destruct (encode k) as [ek|e]; cbn [bind]; [|reflexivity].
  destruct (encode (stringValue Client.noNumber_toString v)) as [ev|e];
    cbn [bind]; [apply IH | reflexivity].
Qed.

Lemma encode_Some (s e : jsstring) : encodeURIComponent s = Some e -> encode s = Return e.
Proof. unfold encode. now intros ->. Qed.

Lemma buildPairs_auth (eu ei eh : jsstring) :
  encodeURIComponent (Client.username this) = Some eu ->
  encodeURIComponent (Client.userid this) = Some ei ->
  encodeURIComponent (Client.handle this) = Some eh ->
  buildPairs Client.noNumber_toString (Client.getAuthParams this) []
  = Return [lit "username=" ++ eu; lit "userid=" ++ ei; lit "handle=" ++ eh].
Proof.
  intros Hu Hi Hh. unfold Client.getAuthParams.
  cbn [buildPairs present stringValue].
  change (encode (lit "username")) with (Return (lit "username")).
  change (encode (lit "userid")) with (Return (lit "userid")).
  change (encode (lit "handle")) with (Return (lit "handle")).
  rewrite (@encode_Some _ _ Hu), (@encode_Some _ _ Hi), (@encode_Some _ _ Hh).
  reflexivity.
Qed.

Lemma wellFormedParams_app (a b : Client.APIRequestParams) :
  wellFormedParams Client.noNumber_toString (a ++ b)
  = (wellFormedParams Client.noNumber_toString a
     && wellFormedParams Client.noNumber_toString b)%bool.
Proof. apply forallb_app. Qed.

Lemma auth_illFormed :
  isWellFormed (Client.username this) = false
  \/ isWellFormed (Client.userid this) = false
  \/ isWellFormed (Client.handle this) = false ->
  forall rest, wellFormedParams Client.noNumber_toString
                 (Client.getAuthParams this ++ rest) = false.
Proof.
  intros H rest. rewrite wellFormedParams_app. apply andb_false_iff. left.
  unfold wellFormedParams, Client.getAuthParams.
  cbn [forallb fst snd present stringValue negb orb].
  change (isWellFormed (lit "username")) with true.
  change (isWellFormed (lit "userid")) with true.
  change (isWellFormed (lit "handle")) with true.
  cbn [andb].
  destruct H as [-> | [-> | ->]]; rewrite ?andb_false_r; reflexivity.
Qed.

End ClientLemmas.

(** X16.  With well-formed credentials and message ID, [checkSMS] requests
    the URL made of the base URL, "/checksms/?" and the four encoded
    parameters in the order username, userid, handle, smsid, and decodes the
    answer with [parseSMSStatusResponse]; the message ID in its result is
    always the caller's own. *)
Theorem checkSMS_request (fetch : jsstring -> Client.settled Client.Response)
    (this : Client.BudgetSMS) (smsId eu ei eh es : jsstring) :
  encodeURIComponent (Client.username this) = Some eu ->
  encodeURIComponent (Client.userid this) = Some ei ->
  encodeURIComponent (Client.handle this) = Some eh ->
  encodeURIComponent smsId = Some es ->
  Client.checkSMS fetch this smsId
  = (response <- answer this
                   (fetch (Client.baseUrl this ++ lit "/checksms/?"
                           ++ authQuery eu ei eh ++ lit "&smsid=" ++ es)) ;;
     parseSMSStatusResponse response smsId)
  /\ (forall r, Client.checkSMS fetch this smsId = Return r -> st_smsId r = smsId).
Proof.
  intros Hu Hi Hh Hs.
  assert (Q : buildQueryString Client.noNumber_toString
                (Client.getAuthParams this ++ [(lit "smsid", VString smsId)])
              = Return (authQuery eu ei eh ++ lit "&smsid=" ++ es)).
  { unfold buildQueryString. rewrite buildPairs_app, (@buildPairs_auth this eu ei eh Hu Hi Hh).
    cbn [bind buildPairs present stringValue].
    change (encode (lit "smsid")) with (Return (lit "smsid")).
    rewrite (@encode_Some _ _ Hs). cbn [bind app join]. unfold authQuery.
    now rewrite <- !app_assoc. }
  assert (E : Client.checkSMS fetch this smsId
              = (response <- answer this
                   (fetch (Client.baseUrl this ++ lit "/checksms/?"
                           ++ authQuery eu ei eh ++ lit "&smsid=" ++ es)) ;;
                 parseSMSStatusResponse response smsId)).
  { unfold Client.checkSMS. rewrite (@request_answer fetch this _ _ _ Q).
    unfold ENDPOINTS.CHECK_SMS.
    change (lit "/checksms/?") with (lit "/checksms/" ++ lit "?").
    now rewrite <- !app_assoc. }
  split; [exact E|].
  intros r. rewrite E.
  destruct (answer this _) as [response|e]; [|discriminate]. cbn [bind].
  unfold parseSMSStatusResponse.
  destruct (parseResponse response) as [data|e]; [|discriminate]. cbn [bind].
  destruct (parseInt data); [discriminate|]. intros H. now injection H as <-.
Qed.

Lemma checkSMS_request_witness :
  Client.checkSMS
    (fun _ => Client.Fulfilled (Client.mkResponse true 200
                                  (Client.Fulfilled (lit "OK 1"))))
    (Client.new_BudgetSMS
       (Client.mkBudgetSMSConfig (lit "user") (lit "1") (lit "h") None None))
    (lit "77")
  = Return (mkSMSStatusResponse true (lit "77") 1).
Proof.
  exact (proj1 (@checkSMS_request
                  (fun _ => Client.Fulfilled (Client.mkResponse true 200
                                                (Client.Fulfilled (lit "OK 1"))))
                  (Client.new_BudgetSMS
                     (Client.mkBudgetSMSConfig (lit "user") (lit "1") (lit "h")
                        None None))
                  (lit "77") (lit "user") (lit "1") (lit "h") (lit "77")
                  eq_refl eq_refl eq_refl eq_refl)).
Defined.

Lemma smsQuery (this : Client.BudgetSMS) (params : Client.SendSMSParams)
    (eu ei eh em ef et : jsstring) (ec : option jsstring) :
  encodeURIComponent (Client.username this) = Some eu ->
  encodeURIComponent (Client.userid this) = Some ei ->
  encodeURIComponent (Client.handle this) = Some eh ->
  encodeURIComponent (Client.sms_msg params) = Some em ->
  encodeURIComponent (Client.sms_from params) = Some ef ->
  encodeURIComponent (Client.sms_to params) = Some et ->
  encodedOpt (Client.sms_customid params) ec ->
  buildQueryString Client.noNumber_toString (Client.smsRequestParams this params)
  = Return (authQuery eu ei eh ++ lit "&msg=" ++ em ++ lit "&from=" ++ ef
            ++ lit "&to=" ++ et
            ++ optPiece (lit "customid") ec
            ++ optPiece (lit "price") (flagText (Client.sms_price params))
            ++ optPiece (lit "mccmnc") (flagText (Client.sms_mccmnc params))
            ++ optPiece (lit "credit") (flagText (Client.sms_credit params))).
Proof.
  intros Hu Hi Hh Hm Hf Ht Hc.
  unfold buildQueryString, Client.smsRequestParams.
  rewrite buildPairs_app, (@buildPairs_auth this eu ei eh Hu Hi Hh).
  cbn [bind buildPairs present stringValue].
  change (encode (lit "msg")) with (Return (lit "msg")).
  change (encode (lit "from")) with (Return (lit "from")).
  change (encode (lit "to")) with (Return (lit "to")).
  rewrite (@encode_Some _ _ Hm), (@encode_Some _ _ Hf), (@encode_Some _ _ Ht).
  cbn [bind]. unfold authQuery.
  destruct params as [msg from to customid price mccmnc credit].
  cbn [Client.sms_customid Client.sms_price Client.sms_mccmnc Client.sms_credit] in *.
  destruct customid as [c|], ec as [x|]; cbn [encodedOpt] in Hc; try contradiction;
    cbn [Client.optString present stringValue];
    try (change (encode (lit "customid")) with (Return (lit "customid"));
         rewrite (@encode_Some _ _ Hc));
    destruct price as [[|]|], mccmnc as [[|]|], credit as [[|]|];
    cbn; repeat first [rewrite app_nil_r | rewrite <- app_assoc; cbn [app]];
    reflexivity.
Qed.

(** X17.  With well-formed credentials and texts, [sendSMS] requests the
    URL made of the base URL, "/sendsms/?" and the encoded parameters in the
    order username, userid, handle, msg, from, to, customid, price, mccmnc,
    credit, where a flag passed as true is sent as 1, one passed as false is
    sent as 0 and one not passed is left out, as is a missing customid.  The
    answer is decoded with the same three flags.  [testSMS] does the same
    with "/testsms/?". *)
Theorem sendSMS_request (fetch : jsstring -> Client.settled Client.Response)
    (this : Client.BudgetSMS) (params : Client.SendSMSParams)
    (eu ei eh em ef et : jsstring) (ec : option jsstring) :
  encodeURIComponent (Client.username this) = Some eu ->
  encodeURIComponent (Client.userid this) = Some ei ->
  encodeURIComponent (Client.handle this) = Some eh ->
  encodeURIComponent (Client.sms_msg params) = Some em ->
  encodeURIComponent (Client.sms_from params) = Some ef ->
  encodeURIComponent (Client.sms_to params) = Some et ->
  encodedOpt (Client.sms_customid params) ec ->
  let query :=
    authQuery eu ei eh ++ lit "&msg=" ++ em ++ lit "&from=" ++ ef
    ++ lit "&to=" ++ et
    ++ optPiece (lit "customid") ec
    ++ optPiece (lit "price") (flagText (Client.sms_price params))
    ++ optPiece (lit "mccmnc") (flagText (Client.sms_mccmnc params))
    ++ optPiece (lit "credit") (flagText (Client.sms_credit params)) in
  let decode response :=
    parseSendSMSResponse response (Client.sms_price params)
      (Client.sms_mccmnc params) (Client.sms_credit params) in
  Client.sendSMS fetch this params
  = (response <- answer this (fetch (Client.baseUrl this ++ lit "/sendsms/?" ++ query)) ;;
     decode response)
  /\ Client.testSMS fetch this params
     = (response <- answer this (fetch (Client.baseUrl this ++ lit "/testsms/?" ++ query)) ;;
        decode response).
Proof.
  intros Hu Hi Hh Hm Hf Ht Hc query decode.
  pose proof (@smsQuery this params eu ei eh em ef et ec Hu Hi Hh Hm Hf Ht Hc) as Q.
  fold query in Q.
  unfold Client.sendSMS, Client.testSMS.
  rewrite !(@request_answer fetch this _ _ _ Q).
  unfold ENDPOINTS.SEND_SMS, ENDPOINTS.TEST_SMS.
  change (lit "/sendsms/?") with (lit "/sendsms/" ++ lit "?").
  change (lit "/testsms/?") with (lit "/testsms/" ++ lit "?").
  rewrite <- !app_assoc. split; reflexivity.
Qed.

Lemma sendSMS_request_witness :
  Client.sendSMS
    (fun url : jsstring =>
       if str_eqb url (lit "https://api.budgetsms.net/sendsms/?username=u&userid=1&handle=h&msg=Hello%20World&from=MyApp&to=316&price=1&mccmnc=0")
       then Client.Fulfilled (Client.mkResponse true 200 (Client.Fulfilled (lit "OK 1 0.05 1")))
       else Client.Rejected (Error (lit "unexpected URL")))
    (Client.new_BudgetSMS
       (Client.mkBudgetSMSConfig (lit "u") (lit "1") (lit "h") None None))
    (Client.mkSendSMSParams (lit "Hello World") (lit "MyApp") (lit "316")
       None (Some true) (Some false) None)
  = Return (mkSendSMSResponse true (lit "1") (Some (Finite (decimal 5 (-2))))
              (Some (IInt 1)) None None).
Proof.
  exact (proj1 (@sendSMS_request
                  (fun url : jsstring =>
                     if str_eqb url (lit "https://api.budgetsms.net/sendsms/?username=u&userid=1&handle=h&msg=Hello%20World&from=MyApp&to=316&price=1&mccmnc=0")
                     then Client.Fulfilled (Client.mkResponse true 200 (Client.Fulfilled (lit "OK 1 0.05 1")))
                     else Client.Rejected (Error (lit "unexpected URL")))
                  (Client.new_BudgetSMS
                     (Client.mkBudgetSMSConfig (lit "u") (lit "1") (lit "h") None None))
                  (Client.mkSendSMSParams (lit "Hello World") (lit "MyApp") (lit "316")
                     None (Some true) (Some false) None)
                  (lit "u") (lit "1") (lit "h")
                  (lit "Hello%20World") (lit "MyApp") (lit "316") None
                  eq_refl eq_refl eq_refl eq_refl eq_refl eq_refl I)).
Defined.

Section ClientFailures.

Variable fetch : jsstring -> Client.settled Client.Response.
Variable json : Type.
Variable JSON_parse : jsstring -> json + jsstring.
Variable Array_isArray : json -> bool.
Variable this : Client.BudgetSMS.

Lemma request_cases (endpoint : jsstring) (params : Client.APIRequestParams) :
  Client.request fetch this endpoint params = Throw URIError
  \/ exists q, buildQueryString Client.noNumber_toString params = Return q
               /\ Client.request fetch this endpoint params
                  = answer this (fetch (Client.baseUrl this ++ endpoint ++ lit "?" ++ q)).
Proof.
  destruct (wellFormedParams Client.noNumber_toString params) eqn:W.
  - right. destruct (buildPairs_wellFormed _ _ W []) as (pieces & _ & E).
    exists (join (lit "&") pieces).
    assert (Q : buildQueryString Client.noNumber_toString params
                = Return (join (lit "&") pieces))
      by (unfold buildQueryString; now rewrite E).
    split; [exact Q | now apply request_answer].
  - left. now apply request_illFormed.
Qed.

(** X18.  When a credential holds a surrogate code unit outside a pair,
    every method of the client throws a URIError, whatever the transport
    would have answered; so do [sendSMS] and [testSMS] when the message, the
    sender or the receiver does. *)
Theorem client_URIError :
  (isWellFormed (Client.username this) = false
   \/ isWellFormed (Client.userid this) = false
   \/ isWellFormed (Client.handle this) = false ->
   (forall params, Client.sendSMS fetch this params = Throw URIError)
   /\ (forall params, Client.testSMS fetch this params = Throw URIError)
   /\ Client.checkCredit fetch this = Throw URIError
   /\ (forall phoneNumber, Client.checkOperator fetch this phoneNumber = Throw URIError)
   /\ (forall phoneNumber, Client.hlr fetch this phoneNumber = Throw URIError)
   /\ (forall smsId, Client.checkSMS fetch this smsId = Throw URIError)
   /\ Client.getPricing fetch JSON_parse Array_isArray this = Throw URIError)
  /\ (forall params,
        isWellFormed (Client.sms_msg params) = false
        \/ isWellFormed (Client.sms_from params) = false
        \/ isWellFormed (Client.sms_to params) = false ->
        Client.sendSMS fetch this params = Throw URIError
        /\ Client.testSMS fetch this params = Throw URIError).
Proof.
  split.
  - intros H. pose proof (auth_illFormed this H) as A.
    assert (A0 : wellFormedParams Client.noNumber_toString (Client.getAuthParams this)
                 = false)
      by (rewrite <- (app_nil_r (Client.getAuthParams this)); apply A).
    unfold Client.sendSMS, Client.testSMS, Client.checkCredit, Client.checkOperator,
      Client.hlr, Client.checkSMS, Client.getPricing, Client.smsRequestParams.
    repeat split; intros;
      rewrite ?(request_illFormed fetch this _ _ (A _)),
              ?(request_illFormed fetch this _ _ A0); reflexivity.
  - intros params H.
    assert (W : wellFormedParams Client.noNumber_toString
                  (Client.smsRequestParams this params) = false).
    { unfold Client.smsRequestParams. rewrite wellFormedParams_app.
      apply andb_false_iff. right. unfold wellFormedParams.
      cbn [forallb fst snd present stringValue negb orb].
      change (isWellFormed (lit "msg")) with true.
      change (isWellFormed (lit "from")) with true.
      change (isWellFormed (lit "to")) with true.
      cbn [andb].
      destruct H as [-> | [-> | ->]]; rewrite ?andb_false_r; reflexivity. }
    unfold Client.sendSMS, Client.testSMS.
    rewrite !(request_illFormed fetch this _ _ W). split; reflexivity.
Qed.

Lemma throwsOneOf_bind {A B : Type} (m : result A) (k : A -> result B) (e1 e2 : exn) :
  throwsOneOf m e1 e2 -> throwsOneOf (bind m k) e1 e2.
Proof. intros [-> | ->]; [left | right]; reflexivity. Qed.

(** X19.  When the transport answers every request with a status that is
    not ok, every method of the client throws a URIError (nothing was
    requested) or the plain Error "HTTP error! status: " followed by the
    status; the body is not looked at, so that an ERR line in it does not
    become a BudgetSMSError. *)
Theorem client_http_error (st : Z) :
  (forall url, exists body, fetch url = Client.Fulfilled (Client.mkResponse false st body)) ->
  let http := Error (lit "HTTP error! status: " ++ Z_toString st) in
  (forall params, throwsOneOf (Client.sendSMS fetch this params) URIError http)
  /\ (forall params, throwsOneOf (Client.testSMS fetch this params) URIError http)
  /\ throwsOneOf (Client.checkCredit fetch this) URIError http
  /\ (forall phoneNumber,
        throwsOneOf (Client.checkOperator fetch this phoneNumber) URIError http)
  /\ (forall phoneNumber, throwsOneOf (Client.hlr fetch this phoneNumber) URIError http)
  /\ (forall smsId, throwsOneOf (Client.checkSMS fetch this smsId) URIError http)
  /\ throwsOneOf (Client.getPricing fetch JSON_parse Array_isArray this) URIError http.
Proof.
  intros H http.
  assert (R : forall endpoint params,
            throwsOneOf (Client.request fetch this endpoint params) URIError http).
  { intros endpoint params.
    destruct (request_cases endpoint params) as [E | (q & _ & E)]; [now left|].
    right. rewrite E.
    destruct (H (Client.baseUrl this ++ endpoint ++ lit "?" ++ q)) as [body ->].
    reflexivity. }
  unfold Client.sendSMS, Client.testSMS, Client.checkCredit, Client.checkOperator,
    Client.hlr, Client.checkSMS, Client.getPricing.
  repeat split; intros; apply throwsOneOf_bind; apply R.
Qed.

End ClientFailures.

Lemma client_URIError_witness :
  Client.checkCredit
    (fun _ => Client.Fulfilled (Client.mkResponse true 200
                                  (Client.Fulfilled (lit "OK 10"))))
    (Client.mkBudgetSMS [55357%N] (lit "1") (lit "h") API_BASE 30000)
  = Throw URIError.
Proof.
  exact (proj1 (proj2 (proj2 (proj1
           (@client_URIError
              (fun _ => Client.Fulfilled (Client.mkResponse true 200
                                            (Client.Fulfilled (lit "OK 10"))))
              unit (fun _ => inl tt) (fun _ => true)
              (Client.mkBudgetSMS [55357%N] (lit "1") (lit "h") API_BASE 30000))
           (or_introl eq_refl))))).
Defined.

Lemma client_http_error_witness :
  throwsOneOf
    (Client.checkCredit
       (fun _ => Client.Fulfilled (Client.mkResponse false 500
                                     (Client.Fulfilled (lit "ERR 1001"))))
       (Client.mkBudgetSMS (lit "u") (lit "1") (lit "h") API_BASE 30000))
    URIError (Error (lit "HTTP error! status: 500")).
Proof.
  refine (proj1 (proj2 (proj2
            (@client_http_error
               (fun _ => Client.Fulfilled (Client.mkResponse false 500
                                             (Client.Fulfilled (lit "ERR 1001"))))
               unit (fun _ => inl tt) (fun _ => true)
               (Client.mkBudgetSMS (lit "u") (lit "1") (lit "h") API_BASE 30000)
               500 _)))).
  intros url. eexists. reflexivity.
Defined.

(** X20.  A client built by [new BudgetSMS] keeps the three credentials,
    never has an empty base URL and never a zero timeout: a missing or
    empty base URL gives the default host, a missing or zero timeout gives
    30000.  With such a timeout and well-formed credentials, a fetch that is
    aborted makes [checkCredit] throw "Request timeout after 30000ms". *)
Theorem new_BudgetSMS_defaults (config : Client.BudgetSMSConfig) :
  let this := Client.new_BudgetSMS config in
  Client.username this = Client.cfg_username config
  /\ Client.userid this = Client.cfg_userid config
  /\ Client.handle this = Client.cfg_handle config
  /\ Client.baseUrl this <> []
  /\ Client.timeout this <> 0%Z
  /\ (Client.cfg_baseUrl config = None \/ Client.cfg_baseUrl config = Some [] ->
      Client.baseUrl this = lit "https://api.budgetsms.net")
  /\ (Client.cfg_timeout config = None \/ Client.cfg_timeout config = Some 0%Z ->
      Client.timeout this = 30000%Z
      /\ forall fetch : jsstring -> Client.settled Client.Response,
           (forall url, fetch url = Client.RejectedAbort) ->
           wellFormedParams Client.noNumber_toString (Client.getAuthParams this) = true ->
           Client.checkCredit fetch this
           = Throw (Error (lit "Request timeout after 30000ms"))).
Proof.
  intros this.
  split; [reflexivity|]. split; [reflexivity|]. split; [reflexivity|].
  split; [|split; [|split]].
  - unfold this, Client.new_BudgetSMS. cbn [Client.baseUrl].
    destruct (Client.cfg_baseUrl config) as [[|c u]|]; discriminate.
  - unfold this, Client.new_BudgetSMS. cbn [Client.timeout].
    destruct (Client.cfg_timeout config) as [t|]; [|discriminate].
    destruct (Z.eqb_spec t 0); [discriminate | assumption].
  - unfold this, Client.new_BudgetSMS. cbn [Client.baseUrl].
    intros [-> | ->]; reflexivity.
  - intros H.
    assert (T : Client.timeout this = 30000%Z)
      by (unfold this, Client.new_BudgetSMS; cbn [Client.timeout];
          destruct H as [-> | ->]; reflexivity).
    split; [exact T|].
    intros fetch Hf W.
    destruct (request_cases fetch this ENDPOINTS.CHECK_CREDIT
                (Client.getAuthParams this)) as [E | (q & _ & E)].
    + unfold Client.request, buildQueryString in E.
      destruct (buildPairs_wellFormed _ _ W []) as (pieces & _ & P).
      rewrite P in E. cbn [bind] in E. rewrite Hf in E. discriminate E.
    + unfold Client.checkCredit. rewrite E, Hf. cbn [answer bind].
      unfold Client.timeoutError. rewrite T. reflexivity.
Qed.

Lemma new_BudgetSMS_defaults_witness :
  Client.checkCredit (fun _ => Client.RejectedAbort)
    (Client.new_BudgetSMS
       (Client.mkBudgetSMSConfig (lit "u") (lit "1") (lit "h") (Some []) (Some 0%Z)))
  = Throw (Error (lit "Request timeout after 30000ms")).
Proof.
  exact (proj2 (proj2 (proj2 (proj2 (proj2 (proj2 (proj2
           (new_BudgetSMS_defaults
              (Client.mkBudgetSMSConfig (lit "u") (lit "1") (lit "h")
                 (Some []) (Some 0%Z)))))))) (or_intror eq_refl))
           (fun _ => Client.RejectedAbort) (fun _ => eq_refl) eq_refl).
Defined.

(* ================================================================= *)
(** ** The query string determines the parameters *)

Section EncodeInjective.

Ltac Zify.zify_post_hook ::= Z.to_euclidean_division_equations.

Lemma hexDigit_inj (a b : N) :
  (a < 16)%N -> (b < 16)%N -> hexDigit a = hexDigit b -> a = b.
Proof.
  unfold hexDigit. intros Ha Hb.
  destruct (N.ltb_spec a 10), (N.ltb_spec b 10); lia.
Qed.

Lemma escapeOctet_inj (o o' : N) (r r' : jsstring) :
  (o < 256)%N -> (o' < 256)%N ->
  escapeOctet o ++ r = escapeOctet o' ++ r' -> o = o' /\ r = r'.
Proof.
  intros Ho Ho' H. unfold escapeOctet in H. cbn [app] in H.
  injection H as H1 H2 Hr.
  apply hexDigit_inj in H1; [|lia|lia]. apply hexDigit_inj in H2; [|lia|lia].
  split; [lia | exact Hr].
Qed.

Lemma utf8_cases (cp : N) :
  (cp < 1114112)%N ->
  (exists o1, utf8 cp = [o1] /\ (o1 < 128)%N /\ cp = o1)
  \/ (exists o1 o2, utf8 cp = [o1; o2] /\ (192 <= o1 < 224)%N /\ (128 <= o2 < 192)%N
                    /\ cp = ((o1 - 192) * 64 + (o2 - 128))%N)
  \/ (exists o1 o2 o3, utf8 cp = [o1; o2; o3] /\ (224 <= o1 < 240)%N
                       /\ (128 <= o2 < 192)%N /\ (128 <= o3 < 192)%N
                       /\ cp = ((o1 - 224) * 4096 + (o2 - 128) * 64 + (o3 - 128))%N)
  \/ (exists o1 o2 o3 o4, utf8 cp = [o1; o2; o3; o4] /\ (240 <= o1 < 245)%N
                          /\ (128 <= o2 < 192)%N /\ (128 <= o3 < 192)%N
                          /\ (128 <= o4 < 192)%N
                          /\ cp = ((o1 - 240) * 262144 + (o2 - 128) * 4096
                                   + (o3 - 128) * 64 + (o4 - 128))%N).
Proof.
  intros H. unfold utf8.
  destruct (N.ltb_spec cp 128).
  { left. exists cp. repeat split; auto. }
  destruct (N.ltb_spec cp 2048).
  { right; left. eexists _, _. split; [reflexivity|]. lia. }
  destruct (N.ltb_spec cp 65536).
  { right; right; left. eexists _, _, _. split; [reflexivity|].
    assert (cp / 64 = 64 * (cp / 4096) + (cp / 64) mod 64)%N.
    { rewrite (N.div_mod' (cp / 64) 64) at 1. rewrite N.Div0.div_div. reflexivity. }
    lia. }
  right; right; right. eexists _, _, _, _. split; [reflexivity|].
  assert (cp / 64 = 64 * (cp / 4096) + (cp / 64) mod 64)%N.
  { rewrite (N.div_mod' (cp / 64) 64) at 1. rewrite N.Div0.div_div. reflexivity. }
  assert (cp / 4096 = 64 * (cp / 262144) + (cp / 4096) mod 64)%N.
  { rewrite (N.div_mod' (cp / 4096) 64) at 1. rewrite N.Div0.div_div. reflexivity. }
  lia.
Qed.

Lemma escapeCodePoint_inj (cp cp' : N) (r r' : jsstring) :
  (cp < 1114112)%N -> (cp' < 1114112)%N ->
  escapeCodePoint cp ++ r = escapeCodePoint cp' ++ r' -> cp = cp' /\ r = r'.
Proof.
  intros H H'. unfold escapeCodePoint.
  destruct (utf8_cases H) as
    [(a1 & -> & ?) | [(a1 & a2 & -> & ?) | [(a1 & a2 & a3 & -> & ?)
    | (a1 & a2 & a3 & a4 & -> & ?)]]];
  destruct (utf8_cases H') as
    [(b1 & -> & ?) | [(b1 & b2 & -> & ?) | [(b1 & b2 & b3 & -> & ?)
    | (b1 & b2 & b3 & b4 & -> & ?)]]];
  cbn [flat_map]; rewrite <- ?app_assoc; cbn [app]; intros E;
  repeat match goal with
         | E : escapeOctet ?a ++ _ = escapeOctet ?b ++ _ |- _ =>
             apply escapeOctet_inj in E; [|lia|lia];
             let E1 := fresh "E" in let E2 := fresh "E" in destruct E as [E1 E2]
         end;
  try lia;
  try (split; [lia | assumption]).
Qed.

Lemma escapeCodePoint_head (cp : N) :
  exists t, escapeCodePoint cp = ch "%" :: t.
Proof.
  unfold escapeCodePoint, utf8.
  destruct (N.ltb cp 128); [eexists; reflexivity|].
  destruct (N.ltb cp 2048); [eexists; reflexivity|].
  destruct (N.ltb cp 65536); eexists; reflexivity.
Qed.

End EncodeInjective.

Lemma option_map_Some {A B : Type} (f : A -> B) (o : option A) (b : B) :
  option_map f o = Some b -> exists a, o = Some a /\ b = f a.
Proof. destruct o as [a|]; simpl; [|discriminate]. intros H. injection H as <-. eauto. Qed.

(** One step of [encodeURIComponent]: an unreserved code unit is copied, any
    other code unit outside the surrogate range is escaped, and a surrogate
    pair is escaped as one code point. *)
Lemma encodeURIComponent_step (c : N) (s e : jsstring) :
  encodeURIComponent (c :: s) = Some e ->
  (isUnreserved c = true /\ exists e1, encodeURIComponent s = Some e1 /\ e = c :: e1)
  \/ (isUnreserved c = false /\ isLeadSurrogate c = false /\ isTrailSurrogate c = false
      /\ exists e1, encodeURIComponent s = Some e1 /\ e = escapeCodePoint c ++ e1)
  \/ (isUnreserved c = false /\ isLeadSurrogate c = true
      /\ exists d s2 e2, s = d :: s2 /\ isTrailSurrogate d = true
                         /\ encodeURIComponent s2 = Some e2
                         /\ e = escapeCodePoint (pairToCodePoint c d) ++ e2).
Proof.
  cbn [encodeURIComponent].
  destruct (isUnreserved c) eqn:U.
  { intros H. apply option_map_Some in H as (e1 & E & ->). left. eauto. }
  destruct (isTrailSurrogate c) eqn:T; [discriminate|].
  destruct (isLeadSurrogate c) eqn:L.
  - destruct s as [|d s2]; [discriminate|].
    destruct (isTrailSurrogate d) eqn:Td; [|discriminate].
    intros H. apply option_map_Some in H as (e2 & E & ->).
    right; right. repeat split. exists d, s2, e2. auto.
  - intros H. apply option_map_Some in H as (e1 & E & ->).
    right; left. repeat split. eauto.
Qed.

Lemma encodeURIComponent_inj_upto (n : nat) :
  forall s s' e,
    List.length s <= n ->
    forallb isCodeUnit s = true -> forallb isCodeUnit s' = true ->
    encodeURIComponent s = Some e -> encodeURIComponent s' = Some e ->
    s = s'.
Proof.
  induction n as [|n IH]; intros s s' e Hl Hs Hs' He He'.
  - destruct s; [|simpl in Hl; lia]. injection He as <-.
    destruct s' as [|c' s']; [reflexivity|].
    apply encodeURIComponent_step in He'
      as [(_ & e1 & _ & E) | [(_ & _ & _ & e1 & _ & E) | (_ & _ & d & s2 & e2 & _ & _ & _ & E)]].
    + discriminate E.
    + destruct (escapeCodePoint_head c') as [t Ht]. rewrite Ht in E. discriminate E.
    + destruct (escapeCodePoint_head (pairToCodePoint c' d)) as [t Ht].
      rewrite Ht in E. discriminate E.
  - destruct s as [|c s].
    { injection He as <-. destruct s' as [|c' s']; [reflexivity|].
      apply encodeURIComponent_step in He'
        as [(_ & e1 & _ & E) | [(_ & _ & _ & e1 & _ & E)
           | (_ & _ & d & s2 & e2 & _ & _ & _ & E)]].
      + discriminate E.
      + destruct (escapeCodePoint_head c') as [t Ht]. rewrite Ht in E. discriminate E.
      + destruct (escapeCodePoint_head (pairToCodePoint c' d)) as [t Ht].
        rewrite Ht in E. discriminate E. }
    destruct s' as [|c' s'].
    { injection He' as <-.
      apply encodeURIComponent_step in He
        as [(_ & e1 & _ & E) | [(_ & _ & _ & e1 & _ & E)
           | (_ & _ & d & s2 & e2 & _ & _ & _ & E)]].
      + discriminate E.
      + destruct (escapeCodePoint_head c) as [t Ht]. rewrite Ht in E. discriminate E.
      + destruct (escapeCodePoint_head (pairToCodePoint c d)) as [t Ht].
        rewrite Ht in E. discriminate E. }
    cbn [forallb] in Hs, Hs'. simpl in Hl.
    apply andb_true_iff in Hs as [Hc Hs]. apply andb_true_iff in Hs' as [Hc' Hs'].
    unfold isCodeUnit in Hc, Hc'. apply N.ltb_lt in Hc, Hc'.
    apply encodeURIComponent_step in He
      as [(U & e1 & E1 & ->) | [(U & L & T & e1 & E1 & ->)
         | (U & L & d & s2 & e2 & -> & Td & E2 & ->)]];
    apply encodeURIComponent_step in He'
      as [(U' & e1' & E1' & E) | [(U' & L' & T' & e1' & E1' & E)
         | (U' & L' & d' & s2' & e2' & -> & Td' & E2' & E)]].
    + injection E as -> ->. f_equal. apply (IH s s' e1'); auto; lia.
    + destruct (escapeCodePoint_head c') as [t Ht]. rewrite Ht in E.
      injection E as E _. rewrite E in U. vm_compute in U. discriminate U.
    + destruct (escapeCodePoint_head (pairToCodePoint c' d')) as [t Ht]. rewrite Ht in E.
      injection E as E _. rewrite E in U. vm_compute in U. discriminate U.
    + destruct (escapeCodePoint_head c) as [t Ht]. rewrite Ht in E.
      injection E as E _. rewrite <- E in U'. vm_compute in U'. discriminate U'.
    + apply escapeCodePoint_inj in E as [-> ->]; [|lia|lia].
      f_equal. apply (IH s s' e1'); auto; lia.
    + exfalso. cbn [forallb] in Hs'. apply andb_true_iff in Hs' as [Hd' _].
      unfold isCodeUnit in Hd'. apply N.ltb_lt in Hd'.
      apply escapeCodePoint_inj in E as [E _].
      * unfold pairToCodePoint in E. bools L'. bools Td'. lia.
      * lia.
      * unfold pairToCodePoint. bools L'. bools Td'. lia.
    + destruct (escapeCodePoint_head (pairToCodePoint c d)) as [t Ht]. rewrite Ht in E.
      injection E as E _. rewrite <- E in U'. vm_compute in U'. discriminate U'.
    + exfalso. cbn [forallb] in Hs. apply andb_true_iff in Hs as [Hd _].
      unfold isCodeUnit in Hd. apply N.ltb_lt in Hd.
      apply escapeCodePoint_inj in E as [E _].
      * unfold pairToCodePoint in E. bools L. bools Td. lia.
      * unfold pairToCodePoint. bools L. bools Td. lia.
      * lia.
    + cbn [forallb] in Hs, Hs'.
      apply andb_true_iff in Hs as [Hd Hs]. apply andb_true_iff in Hs' as [Hd' Hs'].
      apply escapeCodePoint_inj in E as [E ->].
      * assert (c = c' /\ d = d') as [-> ->]
          by (unfold pairToCodePoint in E; bools L; bools Td; bools L'; bools Td'; lia).
        do 2 f_equal. apply (IH s2 s2' e2'); auto. simpl in Hl. lia.
      * unfold pairToCodePoint. bools L. bools Td. lia.
      * unfold pairToCodePoint. bools L'. bools Td'. lia.
Qed.

(** On sequences of code units [encodeURIComponent] is one-to-one. *)
Lemma encodeURIComponent_inj (s s' e : jsstring) :
  forallb isCodeUnit s = true -> forallb isCodeUnit s' = true ->
  encodeURIComponent s = Some e -> encodeURIComponent s' = Some e ->
  s = s'.
Proof. apply (@encodeURIComponent_inj_upto (List.length s)). lia. Qed.

Lemma app_sep_inj (sep : N) (a a' b b' : jsstring) :
  ~ In sep a -> ~ In sep a' ->
  a ++ sep :: b = a' ++ sep :: b' -> a = a' /\ b = b'.
Proof.
  revert a'. induction a as [|x a IH]; intros a' Ha Ha' E.
  - destruct a' as [|x' a']; cbn [app] in E.
    + injection E as <-. auto.
    + injection E as <- _. destruct Ha'. now left.
  - destruct a' as [|x' a']; cbn [app] in E.
    + injection E as -> _. destruct Ha. now left.
    + injection E as <- E.
      destruct (IH a') as [-> ->]; auto; intros H; [apply Ha | apply Ha']; now right.
Qed.

Lemma join_amp_inj (A B : list jsstring) :
  Forall (fun x => ~ In (ch "&") x /\ x <> []) A ->
  Forall (fun x => ~ In (ch "&") x /\ x <> []) B ->
  join (lit "&") A = join (lit "&") B -> A = B.
Proof.
  intros HA. revert B. induction HA as [|x A [Hx Hnx] HA IH]; intros B HB E.
  - destruct HB as [|y B [Hy Hny] HB]; [reflexivity|].
    exfalso. destruct B; cbn [join] in E; destruct y; try congruence; discriminate E.
  - destruct HB as [|y B [Hy Hny] HB].
    { exfalso. destruct A; cbn [join] in E; destruct x; try congruence; discriminate E. }
    destruct A as [|w A], B as [|z B].
    + cbn [join] in E. now subst.
    + exfalso. change (join (lit "&") (y :: z :: B))
        with (y ++ ch "&" :: join (lit "&") (z :: B)) in E.
      cbn [join] in E. apply Hx. rewrite E. apply in_or_app. right. now left.
    + exfalso. change (join (lit "&") (x :: w :: A))
        with (x ++ ch "&" :: join (lit "&") (w :: A)) in E.
      cbn [join] in E. apply Hy. rewrite <- E. apply in_or_app. right. now left.
    + change (join (lit "&") (x :: w :: A))
        with (x ++ ch "&" :: join (lit "&") (w :: A)) in E.
      change (join (lit "&") (y :: z :: B))
        with (y ++ ch "&" :: join (lit "&") (z :: B)) in E.
      apply app_sep_inj in E as [-> E]; auto.
      f_equal. now apply IH.
Qed.

Lemma escaped_no_separator (e : jsstring) :
  forallb isEscaped e = true -> ~ In (ch "&") e /\ ~ In (ch "=") e.
Proof.
  intros He. rewrite forallb_forall in He.
  split; intros Hin; apply He in Hin; vm_compute in Hin; discriminate Hin.
Qed.

Lemma pieceShape_no_amp (piece : jsstring) :
  pieceShape piece -> ~ In (ch "&") piece /\ piece <> [].
Proof.
  intros (ek & ev & -> & Hk & Hv).
  destruct (@escaped_no_separator ek Hk) as [Ak _].
  destruct (@escaped_no_separator ev Hv) as [Av _].
  split.
  - intros Hin. apply in_app_or in Hin as [Hin|Hin]; [tauto|].
    cbn [lit list_ascii_of_string List.map app] in Hin.
    destruct Hin as [Hin|Hin]; [discriminate Hin | tauto].
  - destruct ek; discriminate.
Qed.

Section QueryStringInjective.

Variable num : Type.
Variable Number_toString : num -> jsstring.

Lemma codeUnitParams_filter (params : list (jsstring * value num)) :
  codeUnitParams Number_toString params = true ->
  Forall (fun kv => forallb isCodeUnit (fst kv) = true
                    /\ forallb isCodeUnit (stringValue Number_toString (snd kv)) = true)
         (filter (fun kv => present (snd kv)) params).
Proof.
  unfold codeUnitParams. induction params as [|[k v] rest IH];
    cbn [forallb filter fst snd]; intros H; [constructor|].
  apply andb_true_iff in H as [Hkv Hrest].
  destruct (present v); cbn [negb orb] in Hkv; [|now apply IH].
  apply andb_true_iff in Hkv. constructor; [exact Hkv | now apply IH].
Qed.

Lemma encodedPairs_inj (l l' : list (jsstring * value num)) (pieces : list jsstring) :
  Forall (fun kv => forallb isCodeUnit (fst kv) = true
                    /\ forallb isCodeUnit (stringValue Number_toString (snd kv)) = true) l ->
  Forall (fun kv => forallb isCodeUnit (fst kv) = true
                    /\ forallb isCodeUnit (stringValue Number_toString (snd kv)) = true) l' ->
  Forall2 (encodedPair Number_toString) l pieces ->
  Forall2 (encodedPair Number_toString) l' pieces ->
  List.map (fun kv => (fst kv, stringValue Number_toString (snd kv))) l
  = List.map (fun kv => (fst kv, stringValue Number_toString (snd kv))) l'.
Proof.
  intros Hl Hl' HF. revert l' Hl'.
  induction HF as [|kv piece l pieces (ek & ev & Ek & Ev & Ep) HF IH];
    intros l' Hl' HF'.
  - inversion HF'. reflexivity.
  - inversion HF' as [|kv' ? l2 ? (ek' & ev' & Ek' & Ev' & Ep') HF2]; subst.
    apply Forall_cons_iff in Hl as [[Ck Cv] Hl].
    apply Forall_cons_iff in Hl' as [[Ck' Cv'] Hl'].
    pose proof (@encodeURIComponent_escaped _ _ Ck Ek) as Sk.
    pose proof (@encodeURIComponent_escaped _ _ Ck' Ek') as Sk'.
    apply escaped_no_separator in Sk as [_ Sk].
    apply escaped_no_separator in Sk' as [_ Sk'].
    change (ek ++ lit "=" ++ ev) with (ek ++ ch "=" :: ev) in Ep'.
    change (ek' ++ lit "=" ++ ev') with (ek' ++ ch "=" :: ev') in Ep'.
    apply app_sep_inj in Ep' as [-> ->]; auto.
    cbn [List.map]. f_equal; [|now apply IH].
    f_equal.
    + exact (@encodeURIComponent_inj _ _ _ Ck Ck' Ek Ek').
    + exact (@encodeURIComponent_inj _ _ _ Cv Cv' Ev Ev').
Qed.

(** X21.  On keys and values that are sequences of code units, the query
    string determines what was encoded: two parameter lists for which
    [buildQueryString] returns the same string have the same keys and the
    same string values, in the same order, once the entries with
    [undefined] or [null] values are left out. *)
Theorem buildQueryString_determines (params params' : list (jsstring * value num))
    (q : jsstring) :
  codeUnitParams Number_toString params = true ->
  codeUnitParams Number_toString params' = true ->
  buildQueryString Number_toString params = Return q ->
  buildQueryString Number_toString params' = Return q ->
  List.map (fun kv => (fst kv, stringValue Number_toString (snd kv)))
           (filter (fun kv => present (snd kv)) params)
  = List.map (fun kv => (fst kv, stringValue Number_toString (snd kv)))
             (filter (fun kv => present (snd kv)) params').
Proof.
  intros C C' H H'.
  destruct (@buildQueryString_returns num Number_toString _ _ H) as (pieces & HF & E).
  destruct (@buildQueryString_returns num Number_toString _ _ H') as (pieces' & HF' & E').
  pose proof (@encodedPairs_shape num Number_toString _ _ C HF) as S.
  pose proof (@encodedPairs_shape num Number_toString _ _ C' HF') as S'.
  assert (pieces = pieces').
  { apply join_amp_inj; [| |congruence].
    - eapply Forall_impl; [|exact S]. apply pieceShape_no_amp.
    - eapply Forall_impl; [|exact S']. apply pieceShape_no_amp. }
  subst pieces'.
  exact (@encodedPairs_inj _ _ _ (@codeUnitParams_filter _ C)
           (@codeUnitParams_filter _ C') HF HF').
Qed.

End QueryStringInjective.

Lemma buildQueryString_determines_witness :
  [(lit "msg", lit "a b"); (lit "price", lit "1")]
  = [(lit "msg", lit "a b"); (lit "price", lit "1")].
Proof.
  exact (@buildQueryString_determines Z Z_toString
           [(lit "msg", VString (lit "a b")); (lit "x", VNull);
            (lit "price", VBoolean true)]
           [(lit "msg", VString (lit "a b")); (lit "price", VString (lit "1"))]
           (lit "msg=a%20b&price=1") eq_refl eq_refl eq_refl eq_refl).
Defined.
